(** * The mortality cleaning pipeline (mortality_pipeline.py)

    A shallow embedding of the age-band parsers, of [clean_mortality] and of
    the merge-and-sort stage of [main], with the properties of the
    specification stated over it.

    Data.  A Python string is the list of its Unicode code points.  A cell of
    a table is a string or a float64 number; as in pandas, a missing value is
    the float NaN.  pandas keeps whole-number columns as int64: the model
    does not tell the two dtypes apart and carries the same number as a
    float64, which is what the division and the comparisons of the pipeline
    see; the two differ on the age columns of a table with an age bound
    above 2^53, which [ages_exact] sets apart.  A table is its list of
    column labels and its list of rows; the
    column expressions of the pipeline are all element-wise, so a column (a
    pandas Series) is the list of the cells the rows hold under one label.
    Tables are objects in a store and are named by references, so that
    in-place updates and copies are told apart. *)

From Stdlib Require Import ZArith NArith Floats Sorted.
From stdpp Require Import gmap strings list.

Set Warnings "-clear-no-such-hyp".

Local Open Scope Z_scope.

(** ** Strings and the services of the host platform *)

Definition pystr := list N.

(** The code points of an ASCII literal. *)
Definition cps (s : string) : pystr :=
  map Ascii.N_of_ascii (String.list_ascii_of_string s).

Definition HYPHEN : N := 45.
Definition EN_DASH : N := 8211.
Definition PLUS : N := 43.

(** What the pipeline takes from Python and pandas and which is no code of
    the repository: the Unicode tables behind [str.lower] and the class [\d]
    above the ASCII range, the text [str] gives a number, the number
    [pandas.to_numeric] reads in a string ([None] when it reads none), and
    whether the pandas in use works by copy-on-write, as pandas 3.0 and later
    do: the repository pins no version, and line 132 of the pipeline acts
    differently in the two. *)
Record Host := {
  lower_ext : N -> pystr;
  digit_ext : N -> option N;
  num_str : float -> pystr;
  to_number : pystr -> option float;
  copy_on_write : bool;
}.

(** A cell is a string or a number; the missing value is the number NaN. *)
Inductive cell :=
  | Str (s : pystr)
  | Num (x : float).

Definition NaN : cell := Num nan.

(** [pd.isna] on one value. *)
Definition isna (v : cell) : bool :=
  match v with
  | Str _ => false
  | Num x => is_nan x
  end.

Section AgeBand.
Context (host : Host).

(** [str(v)] *)
Definition str (v : cell) : pystr :=
  match v with
  | Str s => s
  | Num x => num_str host x
  end.

(** [str.lower], code point by code point.  (Python lowers a capital sigma
    to one of two small sigmas by its place in the word; the parsers look for
    neither.) *)
Definition lower_cp (c : N) : pystr :=
  if (c <? 128)%N
  then [if (65 <=? c)%N && (c <=? 90)%N then (c + 32)%N else c]
  else lower_ext host c.

Definition lower (s : pystr) : pystr := flat_map lower_cp s.

(** The decimal value of a code point of the class [\d]. *)
Definition digit_val (c : N) : option Z :=
  if (c <? 128)%N
  then if (48 <=? c)%N && (c <=? 57)%N then Some (Z.of_N c - 48) else None
  else Z.of_N <$> digit_ext host c.

Definition is_digit (c : N) : bool :=
  match digit_val c with Some _ => true | None => false end.

(** [int(text)] on a run of decimal digits, an integer of any size. *)
Definition int_of (ds : pystr) : Z :=
  fold_left (fun acc c => 10 * acc + default 0 (digit_val c)) ds 0.

(** The substring test [p in s]. *)
Fixpoint starts_with (p s : pystr) : bool :=
  match p, s with
  | [], _ => true
  | _ :: _, [] => false
  | a :: p', b :: s' => (a =? b)%N && starts_with p' s'
  end.

Fixpoint contains (p s : pystr) : bool :=
  starts_with p s ||
  match s with
  | [] => false
  | _ :: s' => contains p s'
  end.

(** *** The three regular expressions

    A backtracking matcher in continuation style.  [digits_then k acc s]
    matches the greedy group [(\d+)] at the head of [s] and hands the group
    (after [acc]) and the rest of the text to [k]; when [k] fails on the
    longest run it is tried again on each shorter one. *)
Fixpoint digits_then {A} (k : pystr -> pystr -> option A)
    (acc s : pystr) : option A :=
  match s with
  | c :: s' =>
      if is_digit c then
        match digits_then k (acc ++ [c]) s' with
        | Some r => Some r
        | None => k (acc ++ [c]) s'
        end
      else None
  | [] => None
  end.

(** [(\d+)\+] anchored at the head of the text: the group. *)
Definition plus_at (s : pystr) : option pystr :=
  digits_then
    (fun g rest =>
       match rest with
       | c :: _ => if (c =? PLUS)%N then Some g else None
       | [] => None
       end) [] s.

(** [(\d+)[\-\–](\d+)] anchored at the head of the text: the two groups. *)
Definition range_at (s : pystr) : option (pystr * pystr) :=
  digits_then
    (fun g1 rest =>
       match rest with
       | c :: rest' =>
           if (c =? HYPHEN)%N || (c =? EN_DASH)%N
           then digits_then (fun g2 _ => Some (g1, g2)) [] rest'
           else None
       | [] => None
       end) [] s.

(** [(\d+)] anchored at the head of the text. *)
Definition number_at (s : pystr) : option pystr :=
  digits_then (fun g _ => Some g) [] s.

(** [re.search]: the match at the leftmost position that has one. *)
Fixpoint re_search {A} (at_head : pystr -> option A) (s : pystr) : option A :=
  match at_head s with
  | Some r => Some r
  | None =>
      match s with
      | [] => None
      | _ :: s' => re_search at_head s'
      end
  end.

(** *** The two parsers

    The result is a Python [int] or [np.nan]; [None] stands for [np.nan]. *)
Definition parse_age_min (group : cell) : option Z :=
  if isna group then None
  else
    let s := lower (str group) in
    if contains (cps "under") s then Some 0
    else if contains (cps "not") s || contains (cps "unknown") s then None
    else
      match re_search plus_at s with
      | Some g => Some (int_of g)
      | None =>
          match re_search range_at s with
          | Some (g1, _) => Some (int_of g1)
          | None =>
              match re_search number_at s with
              | Some g => Some (int_of g)
              | None => None
              end
          end
      end.

Definition parse_age_max (group : cell) : option Z :=
  if isna group then None
  else
    let s := lower (str group) in
    if contains (cps "under") s then Some 1
    else if contains (cps "not") s || contains (cps "unknown") s then None
    else
      match re_search range_at s with
      | Some (_, g2) => Some (int_of g2)
      | None =>
          match re_search plus_at s with
          | Some g => Some (int_of g + 9)
          | None =>
              match re_search number_at s with
              | Some g => Some (int_of g)
              | None => None
              end
          end
      end.

End AgeBand.

(** ** Tables and the object store *)

(** A row maps column labels to cells.  A label of the table that a row does
    not hold reads as the missing value, which is how pandas fills the
    columns one of two concatenated tables lacks. *)
Abbreviation row := (gmap string cell).

Definition cell_at (r : row) (c : string) : cell := default NaN (r !! c).

Record frame := Frame {
  columns : list string;
  rows : list row;
}.

Abbreviation loc := nat (only parsing).
Abbreviation store := (list frame) (only parsing).

(** The exceptions of the pipeline: the [KeyError] of a label that is no
    column, and what [pd.read_csv] raises on a file that is missing or that
    it cannot read (FileNotFoundError, EmptyDataError, ParserError, ...),
    given by its name. *)
Inductive exn :=
  | KeyError (label : string)
  | ReadError (name : string).

Inductive outcome (A : Type) :=
  | Ok (a : A)
  | Raise (e : exn).
Arguments Ok {A} a.
Arguments Raise {A} e.

(** Computations over the store that return or raise. *)
Definition M (A : Type) : Type := store -> outcome A * store.

Definition run {A} (m : M A) (st : store) : outcome A * store := m st.

#[global] Instance M_ret : MRet M := fun A a st => (Ok a, st).

#[global] Instance M_bind : MBind M := fun A B k m st =>
  match m st with
  | (Ok a, st') => k a st'
  | (Raise e, st') => (Raise e, st')
  end.

Definition raise {A} (e : exn) : M A := fun st => (Raise e, st).

(** A new object, after the ones there are. *)
Definition new (t : frame) : M loc := fun st => (Ok (length st), st ++ [t]).

Definition get (l : loc) : M frame :=
  fun st => (Ok (default (Frame [] []) (st !! l)), st).

Definition put (l : loc) (t : frame) : M unit :=
  fun st => (Ok tt, <[l := t]> st).

Fixpoint for_each {A} (xs : list A) (body : A -> M unit) : M unit :=
  match xs with
  | [] => mret tt
  | x :: xs' => body x ;; for_each xs' body
  end.

(** *** The pandas operations the pipeline calls *)

Definition has_label (c : string) (cols : list string) : bool :=
  bool_decide (c ∈ cols).

(** [df.copy()] *)
Definition copy (df : loc) : M loc := t ← get df; new t.

(** [df.columns] *)
Definition columns_of (df : loc) : M (list string) :=
  t ← get df; mret (columns t).

(** [df.drop(columns=cs)], a new table; every label of [cs] is a column at
    both calls of the pipeline. *)
Definition frame_drop (cs : list string) (t : frame) : frame :=
  {| columns := filter (fun c => c ∉ cs) (columns t);
     rows := map (fun r => foldr delete r cs) (rows t) |}.

Definition drop (df : loc) (cs : list string) : M loc :=
  t ← get df; new (frame_drop cs t).

(** [df[c]], the column as a Series. *)
Definition series (c : string) (t : frame) : list cell :=
  map (fun r => cell_at r c) (rows t).

Definition getitem (df : loc) (c : string) : M (list cell) :=
  t ← get df;
  if has_label c (columns t) then mret (series c t) else raise (KeyError c).

(** [df[c] = s], in place: a new column goes last. *)
Definition add_label (c : string) (cols : list string) : list string :=
  if has_label c cols then cols else cols ++ [c].

Definition frame_setitem (c : string) (s : list cell) (t : frame) : frame :=
  {| columns := add_label c (columns t);
     rows := zip_with (fun r v => <[c := v]> r) (rows t) s |}.

Definition setitem (df : loc) (c : string) (s : list cell) : M unit :=
  t ← get df; put df (frame_setitem c s t).

(** [df[c] = v] with a scalar [v]. *)
Definition frame_setscalar (c : string) (v : cell) (t : frame) : frame :=
  {| columns := add_label c (columns t);
     rows := map (fun r => <[c := v]> r) (rows t) |}.

Definition setitem_scalar (df : loc) (c : string) (v : cell) : M unit :=
  t ← get df; put df (frame_setscalar c v t).

(** [df[c].replace(olds, v, inplace=True)].  Without copy-on-write (pandas
    before 3.0) [df[c]] is the column the table holds, and the replacement
    reaches the table.  With copy-on-write ([cow], pandas 3.0 and later)
    [df[c]] is a column of its own: the replacement changes that temporary
    object, and the table keeps its cells. *)
Definition replace_cell (olds : list float) (v : cell) (x : cell) : cell :=
  match x with
  | Num y => if existsb (fun o => (y =? o)%float) olds then v else x
  | Str _ => x
  end.

Definition frame_replace (c : string) (olds : list float) (v : cell)
    (t : frame) : frame :=
  {| columns := columns t;
     rows := map (fun r => <[c := replace_cell olds v (cell_at r c)]> r) (rows t) |}.

Definition replace_inplace (cow : bool) (df : loc) (c : string)
    (olds : list float) (v : cell) : M unit :=
  t ← get df;
  if has_label c (columns t) then
    if cow then mret tt else put df (frame_replace c olds v t)
  else raise (KeyError c).

(** [df[mask]] with a Boolean Series, a new table. *)
Definition frame_select (mask : list bool) (t : frame) : frame :=
  {| columns := columns t;
     rows := (filter (fun rm => rm.2 = true) (zip (rows t) mask)).*1 |}.

Definition select (df : loc) (mask : list bool) : M loc :=
  t ← get df; new (frame_select mask t).

(** *** Element-wise operations on cells

    Arithmetic and comparisons meet numbers only: the pipeline applies them
    to columns that went through [to_numeric] or that it computed itself. *)
Definition num_op (f : float -> float -> float) (a b : cell) : cell :=
  match a, b with
  | Num x, Num y => Num (f x y)
  | _, _ => NaN
  end.

Definition cell_gt (a : cell) (y : float) : bool :=
  match a with
  | Num x => (y <? x)%float
  | Str _ => false
  end.

Definition cell_ge (a : cell) (y : float) : bool :=
  match a with
  | Num x => (y <=? x)%float
  | Str _ => false
  end.

(** [astype(int)] of a Boolean. *)
Definition astype_int (b : bool) : cell :=
  Num (if b then 1 else 0)%float.

(** A Python [int] as a cell: the nearest float64. *)
Definition float_of_int (z : Z) : float :=
  SF2Prim (binary_normalize prec emax z 0 false).

Definition age_cell (a : option Z) : cell :=
  match a with
  | Some z => Num (float_of_int z)
  | None => NaN
  end.

(** [Series.replace({"M": "Male", "F": "Female"})] on one value. *)
Definition replace_sex (v : cell) : cell :=
  match v with
  | Str s =>
      if bool_decide (s = cps "M") then Str (cps "Male")
      else if bool_decide (s = cps "F") then Str (cps "Female")
      else v
  | Num _ => v
  end.

Section Cleaner.
Context (host : Host).

(** [pd.to_numeric(_, errors="coerce")] on one value. *)
Definition to_numeric (v : cell) : cell :=
  match v with
  | Num _ => v
  | Str s =>
      match to_number host s with
      | Some x => Num x
      | None => NaN
      end
  end.

(** [astype(str).eq("Unreliable").astype(int)] on one value. *)
Definition unreliable_flag (v : cell) : cell :=
  astype_int (bool_decide (str host v = cps "Unreliable")).

Definition redundant_cols : list string :=
  ["State Code"; "Year Code"; "Ten-Year Age Groups Code"; "Race Code";
   "Sex Code"; "Single Race 6 Code"].

(** 1. Remove redundant columns if they exist *)
Definition remove_redundant (df : loc) : M loc :=
  cols ← columns_of df;
  drop df (filter (fun c => c ∈ cols) redundant_cols).

(** 2. Flag unreliable crude rate BEFORE conversion *)
Definition flag_unreliable (df : loc) : M unit :=
  cols ← columns_of df;
  if has_label "Crude Rate" cols then
    s ← getitem df "Crude Rate";
    setitem df "Unreliable_Flag" (unreliable_flag <$> s)
  else setitem_scalar df "Unreliable_Flag" (Num 0).

(** 3. Convert numeric columns *)
Definition convert_numeric (df : loc) : M unit :=
  for_each ["Year"; "Deaths"; "Population"] (fun col =>
    cols ← columns_of df;
    if has_label col cols then
      s ← getitem df col;
      setitem df col (to_numeric <$> s)
    else mret tt).

(** 4. Convert crude rate to numeric and store as new column *)
Definition convert_crude_rate (df : loc) : M loc :=
  cols ← columns_of df;
  if has_label "Crude Rate" cols then
    s ← getitem df "Crude Rate";
    setitem df "CrudeRate_Reported" (to_numeric <$> s);;
    drop df ["Crude Rate"]
  else
    setitem_scalar df "CrudeRate_Reported" NaN;;
    mret df.

(** 5. Clean Sex labels *)
Definition clean_sex (df : loc) : M unit :=
  cols ← columns_of df;
  if has_label "Sex" cols then
    s ← getitem df "Sex";
    setitem df "Sex" (replace_sex <$> s)
  else mret tt.

(** 6. Parse age bands into numeric *)
Definition parse_age_bands (df : loc) : M unit :=
  cols ← columns_of df;
  if has_label "Ten-Year Age Groups" cols then
    s ← getitem df "Ten-Year Age Groups";
    setitem df "Age_Min" (age_cell ∘ parse_age_min host <$> s);;
    s ← getitem df "Ten-Year Age Groups";
    setitem df "Age_Max" (age_cell ∘ parse_age_max host <$> s);;
    lo ← getitem df "Age_Min";
    hi ← getitem df "Age_Max";
    setitem df "Age_Mid"
      ((fun v => num_op PrimFloat.div v (Num 2)) <$> zip_with (num_op PrimFloat.add) lo hi)
  else mret tt.

(** 7. Calculate crude rate per 100k from deaths & population *)
Definition calc_crude_rate (df : loc) : M unit :=
  deaths ← getitem df "Deaths";
  population ← getitem df "Population";
  setitem df "CrudeRate_Calculated"
    ((fun v => num_op PrimFloat.mul v (Num 100000))
       <$> zip_with (num_op PrimFloat.div) deaths population);;
  replace_inplace (copy_on_write host) df "CrudeRate_Calculated"
    [infinity; neg_infinity] NaN.

(** 8. Basic sanity filters *)
Definition sanity_filter (df : loc) : M loc :=
  population ← getitem df "Population";
  deaths ← getitem df "Deaths";
  select df
    (zip_with andb ((fun v => cell_gt v 0) <$> population)
                   ((fun v => cell_ge v 0) <$> deaths)).

(** The body of [clean_mortality] down to step 7: the table the sanity
    filter is applied to. *)
Definition clean_features (df : loc) : M loc :=
  df ← copy df;
  df ← remove_redundant df;
  flag_unreliable df;;
  convert_numeric df;;
  df ← convert_crude_rate df;
  clean_sex df;;
  parse_age_bands df;;
  calc_crude_rate df;;
  mret df.

Definition clean_mortality (df : loc) : M loc :=
  df ← clean_features df;
  sanity_filter df.

End Cleaner.

(** ** Merging and ordering *)

(** [df.rename(columns={old: new})], a new table. *)
Definition frame_rename (old c' : string) (t : frame) : frame :=
  {| columns := map (fun c => if bool_decide (c = old) then c' else c) (columns t);
     rows := map (fun r => <[c' := cell_at r old]> (delete old r)) (rows t) |}.

Definition rename (df : loc) (old c' : string) : M loc :=
  t ← get df; new (frame_rename old c' t).

(** [pd.concat([a, b], ignore_index=True)]: the columns of both, the rows of
    [a] followed by those of [b]. *)
Definition frame_concat (t1 t2 : frame) : frame :=
  {| columns := columns t1 ++ filter (fun c => c ∉ columns t1) (columns t2);
     rows := rows t1 ++ rows t2 |}.

Definition concat (a b : loc) : M loc :=
  t1 ← get a; t2 ← get b; new (frame_concat t1 t2).

(** The order on the values of one key column: missing values last, numbers
    by value, strings by code points. *)
Fixpoint str_leb (a b : pystr) : bool :=
  match a, b with
  | [], _ => true
  | _ :: _, [] => false
  | x :: a', y :: b' =>
      if (x <? y)%N then true
      else if (x =? y)%N then str_leb a' b'
      else false
  end.

Definition cell_leb (a b : cell) : bool :=
  if isna b then true
  else if isna a then false
  else
    match a, b with
    | Num x, Num y => (x <=? y)%float
    | Str s, Str t => str_leb s t
    | Num _, Str _ => true
    | Str _, Num _ => false
    end.

(** The composite key: the first column on which two rows differ decides. *)
Fixpoint row_leb (by_ : list string) (r1 r2 : row) : bool :=
  match by_ with
  | [] => true
  | c :: by' =>
      if cell_leb (cell_at r1 c) (cell_at r2 c) then
        if cell_leb (cell_at r2 c) (cell_at r1 c) then row_leb by' r1 r2
        else true
      else false
  end.

(** The stable sort of the library, given by the result every stable sort
    has: each row is put in front of the first row of the sorted rest that
    it does not come after. *)
Fixpoint insert_row {A} (leb : A -> A -> bool) (x : A) (l : list A) : list A :=
  match l with
  | [] => [x]
  | y :: l' => if leb x y then x :: y :: l' else y :: insert_row leb x l'
  end.

Fixpoint stable_sort {A} (leb : A -> A -> bool) (l : list A) : list A :=
  match l with
  | [] => []
  | x :: l' => insert_row leb x (stable_sort leb l')
  end.

Definition frame_sort (by_ : list string) (t : frame) : frame :=
  {| columns := columns t;
     rows := stable_sort (row_leb by_) (rows t) |}.

(** [df.sort_values(by=by_, kind="mergesort").reset_index(drop=True)], a new
    table; rows carry no index in the model. *)
Definition sort_values (df : loc) (by_ : list string) : M loc :=
  t ← get df;
  match filter (fun c => c ∉ columns t) by_ with
  | c :: _ => raise (KeyError c)
  | [] => new (frame_sort by_ t)
  end.

Definition sort_key : list string := ["State"; "Year"; "Age_Min"; "Sex"; "Race"].

Section Pipeline.
Context (host : Host).

(** [pd.read_csv(path)].  What a file holds is given to the model: [file] is
    the table the library reads in it, or the exception it raises on a file
    that is missing or that it cannot read.  The table read is a new
    object. *)
Definition read_csv (file : outcome frame) : M loc :=
  match file with
  | Ok t => new t
  | Raise e => raise e
  end.

(** [load_raw]; [file1] and [file2] are what the two files hold. *)
Definition load_raw (file1 file2 : outcome frame) : M (loc * loc) :=
  df1 ← read_csv file1;
  df2 ← read_csv file2;
  cols ← columns_of df2;
  df2 ← (if has_label "Single Race 6" cols
         then rename df2 "Single Race 6" "Race"
         else mret df2);
  setitem_scalar df1 "Source_File" (Str (cps "2004-2017"));;
  setitem_scalar df2 "Source_File" (Str (cps "2018-2023"));;
  mret (df1, df2).

(** [main], down to the table that is written to the output file, in a run
    in which [pd.read_csv] reads the tables [raw1] and [raw2] in the two
    files. *)
Definition main (raw1 raw2 : frame) : M loc :=
  '(df1_raw, df2_raw) ← load_raw (Ok raw1) (Ok raw2);
  clean1 ← clean_mortality host df1_raw;
  clean2 ← clean_mortality host df2_raw;
  merged_clean ← concat clean1 clean2;
  merged_clean ← sort_values merged_clean sort_key;
  mret merged_clean.

End Pipeline.

(** ** The table each step leaves

    The steps of [clean_mortality] read row by row: what a step writes in a
    row depends on that row and on the labels of the table alone.  The
    definitions below give, for the table a step finds, the table it leaves;
    [clean_features_run] and [clean_mortality_run] show that they are what
    the program computes. *)

Definition map_rows (cols : list string) (f : row -> row) (t : frame) : frame :=
  {| columns := cols; rows := f <$> rows t |}.

Section Tables.
Context (host : Host).

Definition redundant_removed (t : frame) : frame :=
  frame_drop (filter (fun c => c ∈ columns t) redundant_cols) t.

Definition flagged (t : frame) : frame :=
  map_rows (add_label "Unreliable_Flag" (columns t))
    (fun r =>
       <["Unreliable_Flag" :=
           if has_label "Crude Rate" (columns t)
           then unreliable_flag host (cell_at r "Crude Rate")
           else Num 0]> r) t.

Definition coerced (c : string) (t : frame) : frame :=
  if has_label c (columns t)
  then map_rows (columns t) (fun r => <[c := to_numeric host (cell_at r c)]> r) t
  else t.

Definition numeric_converted (t : frame) : frame :=
  coerced "Population" (coerced "Deaths" (coerced "Year" t)).

Definition crude_rate_converted (t : frame) : frame :=
  if has_label "Crude Rate" (columns t)
  then
    frame_drop ["Crude Rate"]
      (map_rows (add_label "CrudeRate_Reported" (columns t))
         (fun r => <["CrudeRate_Reported" := to_numeric host (cell_at r "Crude Rate")]> r) t)
  else frame_setscalar "CrudeRate_Reported" NaN t.

Definition sex_cleaned (t : frame) : frame :=
  if has_label "Sex" (columns t)
  then map_rows (columns t) (fun r => <["Sex" := replace_sex (cell_at r "Sex")]> r) t
  else t.

Definition age_mid (lo hi : cell) : cell :=
  num_op PrimFloat.div (num_op PrimFloat.add lo hi) (Num 2).

Definition age_parsed (t : frame) : frame :=
  if has_label "Ten-Year Age Groups" (columns t)
  then
    map_rows
      (add_label "Age_Mid" (add_label "Age_Max" (add_label "Age_Min" (columns t))))
      (fun r =>
         let lo := age_cell (parse_age_min host (cell_at r "Ten-Year Age Groups")) in
         let hi := age_cell (parse_age_max host (cell_at r "Ten-Year Age Groups")) in
         <["Age_Mid" := age_mid lo hi]> (<["Age_Max" := hi]> (<["Age_Min" := lo]> r))) t
  else t.

(** The crude rate of one row, from its deaths and its population: the
    quotient, in which the infinite values are replaced when the replacement
    of line 132 reaches the table. *)
Definition crude_rate (deaths population : cell) : cell :=
  let q := num_op PrimFloat.mul (num_op PrimFloat.div deaths population) (Num 100000) in
  if copy_on_write host then q
  else replace_cell [infinity; neg_infinity] NaN q.

Definition crude_rate_calculated (t : frame) : outcome frame :=
  if has_label "Deaths" (columns t) then
    if has_label "Population" (columns t) then
      Ok (map_rows (add_label "CrudeRate_Calculated" (columns t))
            (fun r =>
               <["CrudeRate_Calculated" :=
                   crude_rate (cell_at r "Deaths") (cell_at r "Population")]> r) t)
    else Raise (KeyError "Population")
  else Raise (KeyError "Deaths").

(** The test of the sanity filter on one row. *)
Definition sane (r : row) : bool :=
  cell_gt (cell_at r "Population") 0 && cell_ge (cell_at r "Deaths") 0.

Definition sanity_filtered (t : frame) : outcome frame :=
  if has_label "Population" (columns t) then
    if has_label "Deaths" (columns t) then
      Ok {| columns := columns t; rows := filter (fun r => sane r = true) (rows t) |}
    else Raise (KeyError "Deaths")
  else Raise (KeyError "Population").

Definition features_table (t : frame) : outcome frame :=
  crude_rate_calculated
    (age_parsed (sex_cleaned (crude_rate_converted
       (numeric_converted (flagged (redundant_removed t)))))).

Definition clean_table (t : frame) : outcome frame :=
  match features_table t with
  | Ok t7 => sanity_filtered t7
  | Raise e => Raise e
  end.

End Tables.

(** The table a reference names; a reference is never dangling in Python. *)
Definition table_at (st : store) (l : loc) : frame :=
  default (Frame [] []) (st !! l).


(** The key of a row in the final order. *)
Definition key_of (r : row) : list cell := (fun c => cell_at r c) <$> sort_key.

#[global] Instance float_eq_dec : EqDecision float.
Proof.
  intros x y. destruct (Leibniz.eqb x y) eqn:E.
  - left. by apply Leibniz.eqb_spec.
  - right. intros Heq. apply Leibniz.eqb_spec in Heq. congruence.
Defined.

#[global] Instance cell_eq_dec : EqDecision cell.
Proof. solve_decision. Defined.

(** Two tables hold the same cells under a label, row by row. *)
Definition same_cell (c : string) (t t' : frame) : Prop :=
  Forall2 (fun r r' : row => cell_at r' c = cell_at r c) (rows t) (rows t').


Definition is_num (v : cell) : Prop := exists x, v = Num x.


(** The flag of a cleaned row [r7] against the row [r] it comes from, in a
    table whose labels are [cols]: the flag is 1 or 0, and it is 1 exactly
    when the table has a crude-rate column and the text of the cell is the
    marker. *)
Definition flag_exact (host : Host) (cols : list string) (r r7 : row) : Prop :=
  (cell_at r7 "Unreliable_Flag" = Num 1 \/ cell_at r7 "Unreliable_Flag" = Num 0) /\
  (cell_at r7 "Unreliable_Flag" = Num 1 <->
   has_label "Crude Rate" cols = true /\
   str host (cell_at r "Crude Rate") = cps "Unreliable").

(** The test of step 8 read on a row as it is given: the population read as
    a number is above 0 and the deaths read as a number are not below 0. *)
Definition kept_row (host : Host) (r : row) : bool :=
  cell_gt (to_numeric host (cell_at r "Population")) 0
  && cell_ge (to_numeric host (cell_at r "Deaths")) 0.

(** The tables on which the age columns of the model are those of the code.
    The bounds the parsers return are Python integers.  pandas holds a column
    of them as int64 when every label has a bound within int64, as float64
    when some label has none, and as Python objects when a bound is beyond;
    line 128 computes the mean in the arithmetic of the columns, which wraps
    around when an int64 sum leaves its range and raises [OverflowError] on
    an integer too large for a float64.  The model holds a bound as the
    float64 nearest to it ([age_cell]) and computes the mean in float64
    ([age_mid]); it has no [OverflowError].  On a table in which every bound
    is at most 2^53 the two agree: each bound is a float64, the sum of two is
    within int64, and the mean is the float64 nearest to the sum, halved, in
    both.  [ages_exact] says that a table has no age-group column or is such
    a table. *)
Definition bound_exact (a : option Z) : bool :=
  match a with
  | Some n => n <=? 2 ^ 53
  | None => true
  end.

Definition ages_exact (host : Host) (t : frame) : bool :=
  negb (has_label "Ten-Year Age Groups" (columns t))
  || forallb (fun r =>
                bound_exact (parse_age_min host (cell_at r "Ten-Year Age Groups"))
                && bound_exact (parse_age_max host (cell_at r "Ten-Year Age Groups")))
       (rows t).


(** ** The tables of [load_raw] and of [main]

    As for the steps of the cleaner: the tables [load_raw] makes of the two
    tables read, and the table [main] returns or the exception it raises;
    [load_raw_run] and [main_run] show that they are what the program
    computes. *)

Definition loaded_first (raw1 : frame) : frame :=
  frame_setscalar "Source_File" (Str (cps "2004-2017")) raw1.

Definition race_unified (raw2 : frame) : frame :=
  if has_label "Single Race 6" (columns raw2)
  then frame_rename "Single Race 6" "Race" raw2
  else raw2.

Definition loaded_second (raw2 : frame) : frame :=
  frame_setscalar "Source_File" (Str (cps "2018-2023")) (race_unified raw2).

Definition sorted_table (by_ : list string) (t : frame) : outcome frame :=
  match filter (fun c => c ∉ columns t) by_ with
  | c :: _ => Raise (KeyError c)
  | [] => Ok (frame_sort by_ t)
  end.

Definition pipeline_table (host : Host) (raw1 raw2 : frame) : outcome frame :=
  match clean_table host (loaded_first raw1) with
  | Raise e => Raise e
  | Ok c1 =>
      match clean_table host (loaded_second raw2) with
      | Raise e => Raise e
      | Ok c2 => sorted_table sort_key (frame_concat c1 c2)
      end
  end.

(** Whether the sort key [c] is a column of the table [main] sorts, read on
    the labels of the two tables read: it is a column of one of them, or it
    is the lower age and one of them has the age-group column, or it is the
    race and the second has the column that [load_raw] renames. *)
Definition key_column (raw1 raw2 : frame) (c : string) : bool :=
  has_label c (columns raw1) || has_label c (columns raw2)
  || bool_decide (c = "Age_Min")
     && (has_label "Ten-Year Age Groups" (columns raw1)
         || has_label "Ten-Year Age Groups" (columns raw2))
  || bool_decide (c = "Race") && has_label "Single Race 6" (columns raw2).

(** ** Tables for the examples

    The scenario of the specification: one row in each file, the second of
    them with an unreliable crude rate and no population. *)

(** A host that has no letter case and no digit outside ASCII, reads the
    number 10.0 and no other, prints a number as nan, and whose pandas is
    one before 3.0. *)
Definition plain_host : Host :=
  {| lower_ext := fun c => [c];
     digit_ext := fun _ => None;
     num_str := fun _ => cps "nan";
     to_number := fun s => if bool_decide (s = cps "10.0") then Some 10%float else None;
     copy_on_write := false |}.

(** The same host with a pandas that works by copy-on-write. *)
Definition cow_host : Host :=
  {| lower_ext := lower_ext plain_host;
     digit_ext := digit_ext plain_host;
     num_str := num_str plain_host;
     to_number := to_number plain_host;
     copy_on_write := true |}.

Definition raw_a : frame :=
  Frame ["State"; "Year"; "Ten-Year Age Groups"; "Sex"; "Race"; "Deaths";
         "Population"; "Crude Rate"]
    [ {[ "State" := Str (cps "CA"); "Year" := Num 2010;
         "Ten-Year Age Groups" := Str (cps "45-54 years");
         "Sex" := Str (cps "M"); "Race" := Str (cps "White");
         "Deaths" := Num 10; "Population" := Num 100000;
         "Crude Rate" := Str (cps "10.0") ]} ].

Definition raw_b : frame :=
  Frame ["State"; "Year"; "Ten-Year Age Groups"; "Sex"; "Single Race 6";
         "Deaths"; "Population"; "Crude Rate"]
    [ {[ "State" := Str (cps "CA"); "Year" := Num 2019;
         "Ten-Year Age Groups" := Str (cps "45-54 years");
         "Sex" := Str (cps "M"); "Single Race 6" := Str (cps "White");
         "Deaths" := Num 10; "Population" := Num 0;
         "Crude Rate" := Str (cps "Unreliable") ]} ].

(** A table without the deaths column. *)
Definition no_deaths : frame :=
  Frame ["State"; "Population"]
    [ {[ "State" := Str (cps "CA"); "Population" := Num 100000 ]} ].

(** A table with a count of deaths so large that the rate overflows, and
    its one row as [clean_mortality] returns it. *)
Definition huge_deaths : frame :=
  Frame ["Deaths"; "Population"]
    [ {[ "Deaths" := Num 0x1p1023; "Population" := Num 1 ]} ].


(** The same row as [clean_mortality] returns it under copy-on-write. *)
Definition huge_deaths_kept : row :=
  {[ "Deaths" := Num 0x1p1023; "Population" := Num 1;
     "Unreliable_Flag" := Num 0; "CrudeRate_Reported" := NaN;
     "CrudeRate_Calculated" := Num infinity ]}.

(** * Properties *)

(** ** The age-band parsers *)

Section AgeBandFacts.
Context (host : Host).

Lemma digit_val_nonneg c d : digit_val host c = Some d -> 0 <= d.
Proof.
  unfold digit_val. destruct (c <? 128)%N.
  - destruct (48 <=? c)%N eqn:Hlo; simpl; [|done].
    destruct (c <=? 57)%N; simpl; [|done].
    intros [= <-]. apply N.leb_le in Hlo. lia.
  - destruct (digit_ext host c); simpl; [|done]. intros [= <-]. lia.
Qed.

Lemma int_of_from_nonneg ds acc :
  0 <= acc ->
  0 <= fold_left (fun a c => 10 * a + default 0 (digit_val host c)) ds acc.
Proof.
  revert acc. induction ds as [|c ds IH]; intros acc Hacc; simpl; [done|].
  apply IH. destruct (digit_val host c) as [d|] eqn:Hd; simpl; [|lia].
  apply digit_val_nonneg in Hd. lia.
Qed.

Lemma int_of_nonneg ds : 0 <= int_of host ds.
Proof. apply int_of_from_nonneg. done. Qed.

(** The anchored matchers see nothing at a code point that is no digit. *)
Lemma digits_then_no_digit {A} (k : pystr -> pystr -> option A) acc s :
  (forall c, head s = Some c -> is_digit host c = false) ->
  digits_then host k acc s = None.
Proof.
  destruct s as [|c s]; simpl; [done|]. intros Hc. by rewrite (Hc c).
Qed.

(** A run of digits that ends before the rest of the text is taken whole by
    the greedy group when the continuation accepts it. *)
Lemma digits_then_greedy {A} (k : pystr -> pystr -> option A) ds acc rest r :
  ds <> [] ->
  Forall (fun c => is_digit host c = true) ds ->
  (forall c, head rest = Some c -> is_digit host c = false) ->
  k (acc ++ ds) rest = Some r ->
  digits_then host k acc (ds ++ rest) = Some r.
Proof.
  revert acc. induction ds as [|c ds IH]; intros acc Hne Hds Hrest Hk; [done|].
  apply Forall_cons in Hds as [Hc Hds]. simpl. rewrite Hc.
  destruct ds as [|c' ds'].
  - simpl. rewrite digits_then_no_digit by done. done.
  - rewrite IH; [done..|]. by rewrite <- app_assoc.
Qed.

Lemma re_search_here {A} (at_head : pystr -> option A) s r :
  at_head s = Some r -> re_search at_head s = Some r.
Proof. intros Hr. destruct s; simpl; by rewrite Hr. Qed.

Lemma re_search_skip {A} (at_head : pystr -> option A) pre s :
  (forall c s', is_digit host c = false -> at_head (c :: s') = None) ->
  Forall (fun c => is_digit host c = false) pre ->
  re_search at_head (pre ++ s) = re_search at_head s.
Proof.
  intros Hat. induction 1 as [|c pre Hc _ IH]; [done|].
  simpl. by rewrite Hat.
Qed.

Lemma range_at_no_digit c s : is_digit host c = false -> range_at host (c :: s) = None.
Proof. intros Hc. apply digits_then_no_digit. by intros ? [= <-]. Qed.

(** The leftmost match of the range pattern in a text of the range shape. *)
Lemma re_search_range pre n1 sep n2 post :
  Forall (fun c => is_digit host c = false) pre ->
  n1 <> [] -> Forall (fun c => is_digit host c = true) n1 ->
  n2 <> [] -> Forall (fun c => is_digit host c = true) n2 ->
  sep = HYPHEN \/ sep = EN_DASH ->
  is_digit host sep = false ->
  (forall c, head post = Some c -> is_digit host c = false) ->
  re_search (range_at host) (pre ++ n1 ++ sep :: n2 ++ post) = Some (n1, n2).
Proof.
  intros Hpre Hne1 Hn1 Hne2 Hn2 Hsep Hsepd Hpost.
  rewrite re_search_skip; [|apply range_at_no_digit|done].
  apply re_search_here. unfold range_at.
  apply digits_then_greedy; [done..| |].
  - by intros ? [= <-].
  - simpl. replace ((sep =? HYPHEN)%N || (sep =? EN_DASH)%N) with true
      by (destruct Hsep as [-> | ->]; done).
    by apply (digits_then_greedy (fun g2 _ => Some (n1, g2)) n2 []).
Qed.

(** What a match of the greedy group tells of the text. *)
Lemma digits_then_Some {A} (k : pystr -> pystr -> option A) acc s r :
  digits_then host k acc s = Some r ->
  exists ds rest,
    s = ds ++ rest /\ ds <> [] /\
    Forall (fun c => is_digit host c = true) ds /\
    k (acc ++ ds) rest = Some r.
Proof.
  revert acc. induction s as [|c s IH]; intros acc; simpl; [done|].
  destruct (is_digit host c) eqn:Hc; [|done].
  destruct (digits_then host k (acc ++ [c]) s) as [r0|] eqn:Hmore.
  - intros [= ->]. destruct (IH _ Hmore) as (ds & rest & -> & _ & Hds & Hk).
    exists (c :: ds), rest. rewrite <- app_assoc in Hk. by repeat split; [|constructor|].
  - intros Hk. exists [c], s. by repeat split; [|constructor|].
Qed.

(** The plus pattern matches only where a digit is followed by a plus sign. *)
Lemma plus_at_Some s g :
  plus_at host s = Some g ->
  exists a c b, s = a ++ c :: PLUS :: b /\ is_digit host c = true.
Proof.
  intros (ds & rest & -> & Hne & Hds & Hk)%digits_then_Some.
  destruct rest as [|p b]; [done|].
  destruct (N.eqb_spec p PLUS) as [->|]; [|done].
  destruct (exists_last Hne) as (a & c & ->).
  apply Forall_app in Hds as [_ [Hc _]%Forall_cons].
  exists a, c, b. by rewrite <- app_assoc.
Qed.

Lemma re_search_plus_None pre s :
  (forall a c b, pre ++ s = a ++ c :: PLUS :: b -> is_digit host c = false) ->
  re_search (plus_at host) s = None.
Proof.
  revert pre. induction s as [|x s IH]; intros pre Hno.
  - simpl. destruct (plus_at host []) eqn:E; [|done].
    apply plus_at_Some in E as (a & c & b & Heq & _). by destruct a.
  - simpl. destruct (plus_at host (x :: s)) as [g|] eqn:E.
    + apply plus_at_Some in E as (a & c & b & Heq & Hc).
      rewrite (Hno (pre ++ a) c b) in Hc; [done|]. by rewrite Heq, app_assoc.
    + apply (IH (pre ++ [x])). intros a c b Heq. apply (Hno a c b).
      by rewrite <- Heq, <- app_assoc.
Qed.

End AgeBandFacts.

(** C5.  A label whose lower-cased text reads [pre N1 sep N2 post], where
    [N1] and [N2] are runs of digits, [sep] is a hyphen or an en-dash, no
    digit comes before [N1] or right after [N2], and to which none of the
    earlier rules applies (it holds none of the words under, not and
    unknown, and no digit of it is followed by a plus sign), is parsed to
    [min = N1] and [max = N2]. *)
Theorem range_label_bounds (host : Host) (label pre n1 n2 post : pystr) (sep : N) :
  lower host label = pre ++ n1 ++ sep :: n2 ++ post ->
  Forall (fun c => is_digit host c = false) pre ->
  n1 <> [] -> Forall (fun c => is_digit host c = true) n1 ->
  n2 <> [] -> Forall (fun c => is_digit host c = true) n2 ->
  sep = HYPHEN \/ sep = EN_DASH ->
  is_digit host sep = false ->
  (forall c, head post = Some c -> is_digit host c = false) ->
  contains (cps "under") (lower host label) = false ->
  contains (cps "not") (lower host label) = false ->
  contains (cps "unknown") (lower host label) = false ->
  (forall a c b, lower host label = a ++ c :: PLUS :: b -> is_digit host c = false) ->
  parse_age_min host (Str label) = Some (int_of host n1) /\
  parse_age_max host (Str label) = Some (int_of host n2).
Proof.
  intros Hshape Hpre Hne1 Hn1 Hne2 Hn2 Hsep Hsepd Hpost Hu Hn Hk Hplus.
  apply (re_search_plus_None host []) in Hplus.
  assert (Hr : re_search (range_at host) (lower host label) = Some (n1, n2))
    by (rewrite Hshape; by apply re_search_range).
  unfold parse_age_min, parse_age_max. simpl.
  by rewrite Hu, Hn, Hk, Hplus, Hr.
Qed.

(** C6.  The fixed cases of the parser. *)
Theorem parse_fixed_cases (host : Host) :
  (parse_age_min host (Str (cps "Under 1 year")) = Some 0 /\
   parse_age_max host (Str (cps "Under 1 year")) = Some 1) /\
  (parse_age_min host (Str (cps "85+ years")) = Some 85 /\
   parse_age_max host (Str (cps "85+ years")) = Some 94) /\
  (parse_age_min host (Str (cps "Not Stated")) = None /\
   parse_age_max host (Str (cps "Not Stated")) = None) /\
  (parse_age_min host NaN = None /\ parse_age_max host NaN = None).
Proof. repeat split; reflexivity. Qed.

(** C7.  The minimum parser tries the plus pattern before the range pattern
    and the maximum parser the range pattern before the plus pattern: on a
    label that matches both, the minimum is read in the plus match and the
    maximum in the range match.  The label 90+ 5-14 is one, with minimum 90
    above maximum 14. *)
Theorem parsers_disagree_on_priority (host : Host) :
  (forall label p a b,
     contains (cps "under") (lower host label) = false ->
     contains (cps "not") (lower host label) || contains (cps "unknown") (lower host label) = false ->
     re_search (plus_at host) (lower host label) = Some p ->
     re_search (range_at host) (lower host label) = Some (a, b) ->
     parse_age_min host (Str label) = Some (int_of host p) /\
     parse_age_max host (Str label) = Some (int_of host b)) /\
  (let label := cps "90+ 5-14" in
   re_search (plus_at host) (lower host label) = Some (cps "90") /\
   re_search (range_at host) (lower host label) = Some (cps "5", cps "14") /\
   parse_age_min host (Str label) = Some 90 /\
   parse_age_max host (Str label) = Some 14).
Proof.
  split.
  - intros label p a b Hu Hn Hp Hr. unfold parse_age_min, parse_age_max. simpl.
    by rewrite Hu, Hn, Hp, Hr.
  - repeat split; reflexivity.
Qed.

(** C10.  A bound the parser returns is never negative. *)
Theorem parsed_bounds_nonneg (host : Host) (group : cell) (n : Z) :
  (parse_age_min host group = Some n -> 0 <= n) /\
  (parse_age_max host group = Some n -> 0 <= n).
Proof.
  unfold parse_age_min, parse_age_max.
  destruct (isna group); [done|]. simpl.
  destruct (contains (cps "under") _); [split; intros [= <-]; lia|].
  destruct (_ || _); [done|].
  pose proof (int_of_nonneg host) as Hint.
  split.
  - destruct (re_search (plus_at host) _) as [g|]; [intros [= <-]; apply Hint|].
    destruct (re_search (range_at host) _) as [[g1 g2]|]; [intros [= <-]; apply Hint|].
    destruct (re_search (number_at host) _) as [g|]; [intros [= <-]; apply Hint|done].
  - destruct (re_search (range_at host) _) as [[g1 g2]|]; [intros [= <-]; apply Hint|].
    destruct (re_search (plus_at host) _) as [g|].
    { intros [= <-]. specialize (Hint g). lia. }
    destruct (re_search (number_at host) _) as [g|]; [intros [= <-]; apply Hint|done].
Qed.

(** ** Facts on float64 numbers *)

Lemma SFcompare_refl x : x <> S754_nan -> SFcompare x x = Some Eq.
Proof.
  destruct x as [s|s| |s m e]; simpl; try done; destruct s; try done;
    rewrite Z.compare_refl, Pos.compare_cont_refl; done.
Qed.

Lemma SFcompare_antisym x y c :
  SFcompare x y = Some c -> SFcompare y x = Some (CompOpp c).
Proof.
  destruct x as [s1|s1| |s1 m1 e1], y as [s2|s2| |s2 m2 e2]; simpl; try done;
    intros [= <-]; f_equal;
    repeat match goal with s : bool |- _ => destruct s end; simpl; try done;
    rewrite (Z.compare_antisym e1 e2);
    destruct (e1 ?= e2)%Z; simpl; try done;
    pose proof (Pos.compare_cont_antisym m1 m2 Eq) as Ha; simpl in Ha;
    rewrite <- Ha; by destruct (Pos.compare_cont Eq m1 m2).
Qed.

Lemma is_nan_Prim2SF x : is_nan x = true <-> Prim2SF x = S754_nan.
Proof.
  unfold is_nan. rewrite FloatAxioms.eqb_spec. unfold SFeqb. split.
  - intros Hx. destruct (Prim2SF x) eqn:E; [..|done| ];
      by rewrite SFcompare_refl in Hx.
  - by intros ->.
Qed.

Lemma is_nan_eq x : is_nan x = true -> x = nan.
Proof. rewrite is_nan_Prim2SF. intros Hx. by apply Prim2SF_inj. Qed.

Lemma not_nan_Prim2SF x : is_nan x = false <-> Prim2SF x <> S754_nan.
Proof. rewrite <- is_nan_Prim2SF. by destruct (is_nan x). Qed.

Lemma SFcompare_some x y :
  x <> S754_nan -> y <> S754_nan -> is_Some (SFcompare x y).
Proof. destruct x, y; simpl; try done; eauto. Qed.

Lemma float_leb_total x y :
  is_nan x = false -> is_nan y = false ->
  (x <=? y)%float = false -> (y <=? x)%float = true.
Proof.
  rewrite !not_nan_Prim2SF, !FloatAxioms.leb_spec. intros Hx Hy. unfold SFleb.
  destruct (SFcompare_some _ _ Hx Hy) as [c Hc].
  rewrite Hc, (SFcompare_antisym _ _ _ Hc). by destruct c.
Qed.




(** ** Running the cleaner *)

Lemma run_bind {A B} (m : M A) (k : A -> M B) st :
  run (m ≫= k) st =
  match run m st with
  | (Ok a, st') => run (k a) st'
  | (Raise e, st') => (Raise e, st')
  end.
Proof. reflexivity. Qed.

Lemma run_ret {A} (a : A) st : run (mret a) st = (Ok a, st).
Proof. reflexivity. Qed.

(** The operations at the table that was made last. *)
Section Top.
Context (st : store) (t : frame).

Lemma get_top : run (get (length st)) (st ++ [t]) = (Ok t, st ++ [t]).
Proof. unfold run, get. by rewrite list_lookup_middle. Qed.

Lemma put_top t' : run (put (length st) t') (st ++ [t]) = (Ok tt, st ++ [t']).
Proof.
  unfold run, put. f_equal.
  rewrite insert_app_r_alt by lia. by rewrite Nat.sub_diag.
Qed.

Lemma columns_of_top :
  run (columns_of (length st)) (st ++ [t]) = (Ok (columns t), st ++ [t]).
Proof. unfold columns_of. by rewrite run_bind, get_top. Qed.

Lemma getitem_top c :
  run (getitem (length st) c) (st ++ [t]) =
  (if has_label c (columns t) then Ok (series c t) else Raise (KeyError c), st ++ [t]).
Proof.
  unfold getitem. rewrite run_bind, get_top. by destruct (has_label c (columns t)).
Qed.

Lemma setitem_top c s :
  run (setitem (length st) c s) (st ++ [t]) = (Ok tt, st ++ [frame_setitem c s t]).
Proof. unfold setitem. by rewrite run_bind, get_top, put_top. Qed.

Lemma setitem_scalar_top c v :
  run (setitem_scalar (length st) c v) (st ++ [t]) =
  (Ok tt, st ++ [frame_setscalar c v t]).
Proof. unfold setitem_scalar. by rewrite run_bind, get_top, put_top. Qed.

Lemma drop_top cs :
  run (drop (length st) cs) (st ++ [t]) =
  (Ok (length (st ++ [t])), (st ++ [t]) ++ [frame_drop cs t]).
Proof. unfold drop. by rewrite run_bind, get_top. Qed.

Lemma select_top mask :
  run (select (length st) mask) (st ++ [t]) =
  (Ok (length (st ++ [t])), (st ++ [t]) ++ [frame_select mask t]).
Proof. unfold select. by rewrite run_bind, get_top. Qed.

Lemma replace_inplace_top cow c olds v :
  run (replace_inplace cow (length st) c olds v) (st ++ [t]) =
  if has_label c (columns t)
  then (Ok tt, st ++ [if cow then t else frame_replace c olds v t])
  else (Raise (KeyError c), st ++ [t]).
Proof.
  unfold replace_inplace. rewrite run_bind, get_top.
  destruct (has_label c (columns t)); [|done].
  destruct cow; [done|apply put_top].
Qed.

End Top.

Lemma has_label_add c cols : has_label c (add_label c cols) = true.
Proof.
  unfold add_label. destruct (has_label c cols) eqn:Hc; [done|].
  unfold has_label. apply bool_decide_eq_true. set_solver.
Qed.

Lemma add_label_present c cols : has_label c cols = true -> add_label c cols = cols.
Proof. unfold add_label. by intros ->. Qed.

(** Writing a column computed cell by cell from a column of the table. *)
Lemma setitem_of_series c c0 (f : cell -> cell) t :
  frame_setitem c (f <$> series c0 t) t =
  map_rows (add_label c (columns t)) (fun r => <[c := f (cell_at r c0)]> r) t.
Proof.
  unfold frame_setitem, map_rows, series. f_equal.
  rewrite <- list_fmap_compose, zip_with_fmap_r, zip_with_diag. done.
Qed.

Lemma select_of_series (f : row -> bool) (l : list row) :
  (filter (fun rm : row * bool => rm.2 = true) (zip l (f <$> l))).*1 =
  filter (fun r => f r = true) l.
Proof.
  induction l as [|r l IH]; [done|].
  rewrite fmap_cons. change (zip (r :: l) (f r :: (f <$> l))) with ((r, f r) :: zip l (f <$> l)).
  rewrite !filter_cons. simpl.
  destruct (decide (f r = true)); rewrite ?fmap_cons, IH; done.
Qed.

Lemma setitem_of_two_series c a b (f : cell -> cell -> cell) (g : cell -> cell) t :
  frame_setitem c (g <$> zip_with f (series a t) (series b t)) t =
  map_rows (add_label c (columns t))
    (fun r => <[c := g (f (cell_at r a) (cell_at r b))]> r) t.
Proof.
  unfold frame_setitem, map_rows, series. f_equal.
  induction (rows t) as [|r l IH]; [done|]. cbn. f_equal. apply IH.
Qed.

Lemma has_label_add_other c c' cols :
  has_label c cols = true -> has_label c (add_label c' cols) = true.
Proof.
  unfold add_label. destruct (has_label c' cols); [done|].
  unfold has_label. rewrite !bool_decide_eq_true. set_solver.
Qed.

Lemma cell_at_insert_eq (r : row) c v : cell_at (<[c := v]> r) c = v.
Proof. unfold cell_at. by rewrite lookup_insert_eq. Qed.

Lemma cell_at_insert_ne (r : row) c c' v :
  c <> c' -> cell_at (<[c := v]> r) c' = cell_at r c'.
Proof. intros Hne. unfold cell_at. by rewrite lookup_insert_ne. Qed.

Lemma cell_at_delete_ne (r : row) c c' :
  c <> c' -> cell_at (delete c r) c' = cell_at r c'.
Proof. intros Hne. unfold cell_at. by rewrite lookup_delete_ne. Qed.

Section Steps.
Context (host : Host) (st : store) (t : frame).

Lemma remove_redundant_top :
  run (remove_redundant (length st)) (st ++ [t]) =
  (Ok (length (st ++ [t])), (st ++ [t]) ++ [redundant_removed t]).
Proof.
  unfold remove_redundant. by rewrite run_bind, columns_of_top, drop_top.
Qed.

Lemma flag_unreliable_top :
  run (flag_unreliable host (length st)) (st ++ [t]) = (Ok tt, st ++ [flagged host t]).
Proof.
  unfold flag_unreliable, flagged. rewrite run_bind, columns_of_top.
  destruct (has_label "Crude Rate" (columns t)) eqn:Hc.
  - rewrite run_bind, getitem_top, Hc, setitem_top. by rewrite setitem_of_series.
  - by rewrite setitem_scalar_top.
Qed.

Lemma coerce_top c :
  run (cols ← columns_of (length st);
       if has_label c cols then
         s ← getitem (length st) c; setitem (length st) c (to_numeric host <$> s)
       else mret tt) (st ++ [t]) = (Ok tt, st ++ [coerced host c t]).
Proof.
  unfold coerced. rewrite run_bind, columns_of_top.
  destruct (has_label c (columns t)) eqn:Hc; [|done].
  rewrite run_bind, getitem_top, Hc, setitem_top.
  by rewrite setitem_of_series, add_label_present.
Qed.

End Steps.

Section StepsOnward.
Context (host : Host) (st : store) (t : frame).

Lemma convert_numeric_top :
  run (convert_numeric host (length st)) (st ++ [t]) =
  (Ok tt, st ++ [numeric_converted host t]).
Proof.
  unfold convert_numeric, numeric_converted. simpl.
  rewrite run_bind, coerce_top, run_bind, coerce_top, run_bind, coerce_top. done.
Qed.

Lemma convert_crude_rate_top :
  exists g,
    run (convert_crude_rate host (length st)) (st ++ [t]) =
    (Ok (length (st ++ g)), (st ++ g) ++ [crude_rate_converted host t]).
Proof.
  unfold convert_crude_rate, crude_rate_converted. rewrite run_bind, columns_of_top.
  destruct (has_label "Crude Rate" (columns t)) eqn:Hc.
  - rewrite run_bind, getitem_top, Hc, run_bind, setitem_top, drop_top.
    rewrite setitem_of_series. by eexists [_].
  - rewrite run_bind, setitem_scalar_top. exists []. by rewrite app_nil_r.
Qed.

Lemma clean_sex_top :
  run (clean_sex (length st)) (st ++ [t]) = (Ok tt, st ++ [sex_cleaned t]).
Proof.
  unfold clean_sex, sex_cleaned. rewrite run_bind, columns_of_top.
  destruct (has_label "Sex" (columns t)) eqn:Hc; [|done].
  rewrite run_bind, getitem_top, Hc, setitem_top.
  by rewrite setitem_of_series, add_label_present.
Qed.

Lemma parse_age_bands_top :
  run (parse_age_bands host (length st)) (st ++ [t]) = (Ok tt, st ++ [age_parsed host t]).
Proof.
  unfold parse_age_bands, age_parsed. rewrite run_bind, columns_of_top.
  destruct (has_label "Ten-Year Age Groups" (columns t)) eqn:Hc; [|done].
  rewrite run_bind, getitem_top, Hc, run_bind, setitem_top, setitem_of_series.
  rewrite run_bind, getitem_top. simpl columns.
  rewrite (has_label_add_other _ _ _ Hc).
  rewrite run_bind, setitem_top, setitem_of_series.
  rewrite run_bind, getitem_top. simpl columns.
  rewrite (has_label_add_other _ "Age_Max"), run_bind by apply has_label_add.
  rewrite getitem_top. simpl columns. rewrite has_label_add.
  rewrite setitem_top, setitem_of_two_series.
  do 3 f_equal. unfold map_rows. simpl. f_equal.
  rewrite <- !list_fmap_compose. apply list_fmap_ext. intros _ r _. simpl.
  rewrite cell_at_insert_eq, (cell_at_insert_ne _ "Age_Max" "Age_Min") by done.
  rewrite cell_at_insert_eq, (cell_at_insert_ne _ "Age_Min" "Ten-Year Age Groups") by done.
  done.
Qed.

Lemma calc_crude_rate_top :
  run (calc_crude_rate host (length st)) (st ++ [t]) =
  match crude_rate_calculated host t with
  | Ok t' => (Ok tt, st ++ [t'])
  | Raise e => (Raise e, st ++ [t])
  end.
Proof.
  unfold calc_crude_rate, crude_rate_calculated. rewrite run_bind, getitem_top.
  destruct (has_label "Deaths" (columns t)); [|done].
  rewrite run_bind, getitem_top.
  destruct (has_label "Population" (columns t)); [|done].
  rewrite run_bind, setitem_top, setitem_of_two_series, replace_inplace_top.
  simpl columns. rewrite has_label_add. do 3 f_equal.
  unfold crude_rate. destruct (copy_on_write host); [done|].
  unfold frame_replace, map_rows. simpl. f_equal.
  rewrite <- list_fmap_compose. apply list_fmap_ext. intros _ r _. simpl.
  by rewrite cell_at_insert_eq, insert_insert_eq.
Qed.

Lemma sanity_filter_top :
  run (sanity_filter (length st)) (st ++ [t]) =
  match sanity_filtered t with
  | Ok t' => (Ok (length (st ++ [t])), (st ++ [t]) ++ [t'])
  | Raise e => (Raise e, st ++ [t])
  end.
Proof.
  unfold sanity_filter, sanity_filtered. rewrite run_bind, getitem_top.
  destruct (has_label "Population" (columns t)); [|done].
  rewrite run_bind, getitem_top.
  destruct (has_label "Deaths" (columns t)); [|done].
  rewrite select_top. do 3 f_equal. unfold frame_select, series. f_equal.
  rewrite <- !list_fmap_compose, zip_with_fmap_l, zip_with_fmap_r, zip_with_diag.
  apply (select_of_series sane).
Qed.

End StepsOnward.

Lemma copy_run (st : store) (df : loc) :
  run (copy df) st = (Ok (length st), st ++ [table_at st df]).
Proof. reflexivity. Qed.

(** What [clean_features] and [clean_mortality] compute: the tables they make
    come after the ones there were, and the table returned is the last. *)
Lemma clean_features_run (host : Host) (st : store) (df : loc) :
  exists g,
    run (clean_features host df) st =
    match features_table host (table_at st df) with
    | Ok t7 => (Ok (length (st ++ g)), (st ++ g) ++ [t7])
    | Raise e => (Raise e, st ++ g)
    end.
Proof.
  unfold clean_features, features_table.
  set (t := table_at st df).
  rewrite run_bind, (copy_run st df). fold t.
  rewrite run_bind, remove_redundant_top.
  rewrite run_bind, flag_unreliable_top, run_bind, convert_numeric_top, run_bind.
  destruct (convert_crude_rate_top host (st ++ [t])
              (numeric_converted host (flagged host (redundant_removed t)))) as [g ->].
  rewrite run_bind, clean_sex_top, run_bind, parse_age_bands_top.
  rewrite run_bind, calc_crude_rate_top.
  destruct (crude_rate_calculated host _) as [t7|e].
  - exists ([t] ++ g). rewrite run_ret. by rewrite !app_assoc.
  - eexists ([t] ++ g ++ [_]). by rewrite !app_assoc.
Qed.

Lemma clean_mortality_run (host : Host) (st : store) (df : loc) :
  exists g,
    run (clean_mortality host df) st =
    match clean_table host (table_at st df) with
    | Ok t8 => (Ok (length (st ++ g)), (st ++ g) ++ [t8])
    | Raise e => (Raise e, st ++ g)
    end.
Proof.
  unfold clean_mortality, clean_table. rewrite run_bind.
  destruct (clean_features_run host st df) as [g ->].
  destruct (features_table host (table_at st df)) as [t7|e]; [|by exists g].
  rewrite sanity_filter_top.
  destruct (sanity_filtered t7) as [t8|e].
  - exists (g ++ [t7]). by rewrite !app_assoc.
  - exists (g ++ [t7]). by rewrite !app_assoc.
Qed.

(** ** Labels and cells along the steps *)

Lemma notin_by_decide (c : string) (cs : list string) :
  bool_decide (c ∈ cs) = false -> c ∉ cs.
Proof. apply bool_decide_eq_false_1. Qed.

(** Labels are literals: that two differ, or that one is not in a list, is
    decided by evaluation. *)
Ltac label_solver :=
  lazymatch goal with
  | |- _ ∉ _ => apply notin_by_decide; vm_compute; reflexivity
  | |- _ <> _ => discriminate
  end.

Lemma has_label_add_ne c k cols :
  c <> k -> has_label c (add_label k cols) = has_label c cols.
Proof.
  intros Hne. unfold add_label. destruct (has_label k cols); [done|].
  unfold has_label. apply bool_decide_ext. set_solver.
Qed.

Lemma has_label_filter_out c (cs cols : list string) :
  c ∉ cs -> has_label c (filter (fun x => x ∉ cs) cols) = has_label c cols.
Proof.
  intros Hc. unfold has_label. apply bool_decide_ext.
  rewrite list_elem_of_filter. naive_solver.
Qed.

Lemma cell_at_deletes (r : row) (cs : list string) c :
  c ∉ cs -> cell_at (foldr delete r cs) c = cell_at r c.
Proof.
  induction cs as [|k cs IH]; intros Hc; simpl; [done|].
  rewrite cell_at_delete_ne by set_solver. apply IH. set_solver.
Qed.

Lemma same_cell_refl c t : same_cell c t t.
Proof. unfold same_cell. by apply Forall_Forall2_diag, Forall_forall. Qed.

Lemma Forall2_chain {A B C} (R : A -> B -> Prop) (S : B -> C -> Prop)
    (T : A -> C -> Prop) l1 l2 l3 :
  (forall x y z, R x y -> S y z -> T x z) ->
  Forall2 R l1 l2 -> Forall2 S l2 l3 -> Forall2 T l1 l3.
Proof.
  intros HT H12. revert l3.
  induction H12 as [|x y l1 l2 Hxy _ IH]; intros l3 H23; inv H23; constructor; eauto.
Qed.

Lemma same_cell_trans c t1 t2 t3 :
  same_cell c t1 t2 -> same_cell c t2 t3 -> same_cell c t1 t3.
Proof.
  unfold same_cell. apply Forall2_chain. intros r1 r2 r3 H12 H23. congruence.
Qed.

Lemma same_cell_map_rows c cols (f : row -> row) t :
  (forall r, cell_at (f r) c = cell_at r c) -> same_cell c t (map_rows cols f t).
Proof.
  intros Hf. unfold same_cell, map_rows. simpl.
  apply Forall2_fmap_r, Forall_Forall2_diag, Forall_forall. intros r _. apply Hf.
Qed.

Lemma same_cell_drop c (cs : list string) t : c ∉ cs -> same_cell c t (frame_drop cs t).
Proof.
  intros Hc. unfold same_cell, frame_drop. simpl.
  apply Forall2_fmap_r, Forall_Forall2_diag, Forall_forall. intros r _.
  by apply cell_at_deletes.
Qed.


Section StepFacts.
Context (host : Host).

Lemma redundant_removed_same c t :
  c ∉ redundant_cols -> same_cell c t (redundant_removed t).
Proof.
  intros Hc. apply same_cell_drop. intros Hin. apply Hc.
  by apply list_elem_of_filter in Hin as [_ ?].
Qed.

Lemma flagged_same c t : c <> "Unreliable_Flag" -> same_cell c t (flagged host t).
Proof. intros Hc. apply same_cell_map_rows. intros r. by apply cell_at_insert_ne. Qed.

Lemma coerced_same c k t : c <> k -> same_cell c t (coerced host k t).
Proof.
  intros Hc. unfold coerced. destruct (has_label k (columns t)).
  - apply same_cell_map_rows. intros r. by apply cell_at_insert_ne.
  - apply same_cell_refl.
Qed.

Lemma numeric_converted_same c t :
  c ∉ ["Year"; "Deaths"; "Population"] -> same_cell c t (numeric_converted host t).
Proof.
  intros Hc. unfold numeric_converted.
  eapply same_cell_trans; [|apply coerced_same; set_solver].
  eapply same_cell_trans; [|apply coerced_same; set_solver].
  apply coerced_same; set_solver.
Qed.

Lemma crude_rate_converted_same c t :
  c ∉ ["Crude Rate"; "CrudeRate_Reported"] ->
  same_cell c t (crude_rate_converted host t).
Proof.
  intros Hc. unfold crude_rate_converted.
  destruct (has_label "Crude Rate" (columns t)).
  - eapply same_cell_trans; [|apply same_cell_drop; set_solver].
    apply same_cell_map_rows. intros r. apply cell_at_insert_ne. set_solver.
  - apply (same_cell_map_rows c _ (fun r => <["CrudeRate_Reported" := NaN]> r)).
    intros r. apply cell_at_insert_ne. set_solver.
Qed.

Lemma sex_cleaned_same c t : c <> "Sex" -> same_cell c t (sex_cleaned t).
Proof.
  intros Hc. unfold sex_cleaned. destruct (has_label "Sex" (columns t)).
  - apply same_cell_map_rows. intros r. by apply cell_at_insert_ne.
  - apply same_cell_refl.
Qed.

Lemma age_parsed_same c t :
  c ∉ ["Age_Min"; "Age_Max"; "Age_Mid"] -> same_cell c t (age_parsed host t).
Proof.
  intros Hc. unfold age_parsed.
  destruct (has_label "Ten-Year Age Groups" (columns t)).
  - apply same_cell_map_rows. intros r. simpl.
    rewrite !cell_at_insert_ne by set_solver. done.
  - apply same_cell_refl.
Qed.

(** Steps 4 to 6 leave the cells and the presence of any other label. *)
Lemma steps_4_6_same c t :
  c ∉ ["Crude Rate"; "CrudeRate_Reported"; "Sex"; "Age_Min"; "Age_Max"; "Age_Mid"] ->
  same_cell c t (age_parsed host (sex_cleaned (crude_rate_converted host t))).
Proof.
  intros Hc.
  eapply same_cell_trans; [|apply age_parsed_same; set_solver].
  eapply same_cell_trans; [|apply sex_cleaned_same; set_solver].
  apply crude_rate_converted_same; set_solver.
Qed.

Lemma columns_coerced k t : columns (coerced host k t) = columns t.
Proof. unfold coerced. by destruct (has_label k (columns t)). Qed.

Lemma columns_numeric_converted t : columns (numeric_converted host t) = columns t.
Proof. unfold numeric_converted. by rewrite !columns_coerced. Qed.

Lemma steps_4_6_label c t :
  c ∉ ["Crude Rate"; "CrudeRate_Reported"; "Age_Min"; "Age_Max"; "Age_Mid"] ->
  has_label c (columns (age_parsed host (sex_cleaned (crude_rate_converted host t)))) =
  has_label c (columns t).
Proof.
  intros Hc. unfold age_parsed, sex_cleaned, crude_rate_converted.
  repeat match goal with
    | |- context [if ?b then _ else _] => destruct b eqn:?
    end; simpl;
    rewrite ?has_label_add_ne, ?has_label_filter_out, ?has_label_add_ne by set_solver;
    done.
Qed.




End StepFacts.

(** ** The cleaned table *)

Lemma table_at_top (st : store) t : table_at (st ++ [t]) (length st) = t.
Proof. unfold table_at. by rewrite list_lookup_middle. Qed.

Lemma get_run (st : store) l : run (get l) st = (Ok (table_at st l), st).
Proof. reflexivity. Qed.

Lemma clean_features_Ok host st df l7 st7 :
  run (clean_features host df) st = (Ok l7, st7) ->
  features_table host (table_at st df) = Ok (table_at st7 l7).
Proof.
  destruct (clean_features_run host st df) as [g ->].
  destruct (features_table host (table_at st df)) as [t7|e]; [|done].
  intros [= <- <-]. by rewrite table_at_top.
Qed.

Lemma sanity_filtered_Ok t t8 :
  sanity_filtered t = Ok t8 ->
  columns t8 = columns t /\ rows t8 = filter (fun r => sane r = true) (rows t).
Proof.
  unfold sanity_filtered.
  destruct (has_label "Population" _); [|done].
  destruct (has_label "Deaths" _); [|done]. by intros [= <-].
Qed.

Lemma clean_mortality_table host st df out st' :
  run (clean_mortality host df) st = (Ok out, st') ->
  clean_table host (table_at st df) = Ok (table_at st' out).
Proof.
  intros Hrun.
  destruct (clean_mortality_run host st df) as [g Hg].
  rewrite Hg in Hrun. clear Hg.
  destruct (clean_table host (table_at st df)) as [t8|e]; [|done].
  injection Hrun as <- <-. by rewrite table_at_top.
Qed.

Lemma clean_features_returns host st df t7 :
  features_table host (table_at st df) = Ok t7 ->
  exists l7 st7,
    run (clean_features host df) st = (Ok l7, st7) /\ table_at st7 l7 = t7.
Proof.
  intros Hf. destruct (clean_features_run host st df) as [g Hg].
  rewrite Hf in Hg. eexists _, _. split; [exact Hg|]. apply table_at_top.
Qed.

Lemma clean_table_Ok host t t8 :
  clean_table host t = Ok t8 ->
  exists t7,
    features_table host t = Ok t7 /\
    columns t8 = columns t7 /\
    rows t8 = filter (fun r => sane r = true) (rows t7).
Proof.
  unfold clean_table. destruct (features_table host t) as [t7|e]; [|done].
  intros Hs. exists t7. split; [done|]. by apply sanity_filtered_Ok.
Qed.

(** The table [clean_mortality] returns holds the rows of the table of
    [clean_features] that pass the sanity test, in their order. *)
Lemma clean_mortality_Ok host st df out st' :
  run (clean_mortality host df) st = (Ok out, st') ->
  exists l7 st7,
    run (clean_features host df) st = (Ok l7, st7) /\
    features_table host (table_at st df) = Ok (table_at st7 l7) /\
    rows (table_at st' out) =
      filter (fun r => sane r = true) (rows (table_at st7 l7)).
Proof.
  intros Hrun. apply clean_mortality_table in Hrun.
  apply clean_table_Ok in Hrun as (t7 & Hf & _ & Hrows).
  destruct (clean_features_returns _ st df _ Hf) as (l7 & st7 & Hrun7 & <-).
  by exists l7, st7.
Qed.


Lemma crude_rate_calculated_Ok host t t7 :
  crude_rate_calculated host t = Ok t7 ->
  has_label "Deaths" (columns t) = true /\
  has_label "Population" (columns t) = true /\
  t7 = map_rows (add_label "CrudeRate_Calculated" (columns t))
         (fun r => <["CrudeRate_Calculated" :=
                      crude_rate host (cell_at r "Deaths") (cell_at r "Population")]> r) t.
Proof.
  unfold crude_rate_calculated.
  destruct (has_label "Deaths" _); [|done].
  destruct (has_label "Population" _); [|done]. by intros [= <-].
Qed.

Lemma calculated_same host c t t7 :
  c <> "CrudeRate_Calculated" ->
  crude_rate_calculated host t = Ok t7 -> same_cell c t t7.
Proof.
  intros Hc (_ & _ & ->)%crude_rate_calculated_Ok.
  apply same_cell_map_rows. intros r. by apply cell_at_insert_ne.
Qed.


Lemma flagged_flag host t :
  Forall2 (fun r r2 : row =>
             cell_at r2 "Unreliable_Flag" =
               if has_label "Crude Rate" (columns t)
               then unreliable_flag host (cell_at r "Crude Rate") else Num 0)
    (rows t) (rows (flagged host (redundant_removed t))).
Proof.
  assert ("Crude Rate" ∉ filter (fun c => c ∈ columns t) redundant_cols) as Hcr.
  { rewrite list_elem_of_filter. intros [_ Hin].
    assert ("Crude Rate" ∉ redundant_cols) by label_solver. done. }
  unfold flagged, redundant_removed, frame_drop, map_rows. cbn [rows columns].
  rewrite <- list_fmap_compose.
  apply Forall2_fmap_r, Forall_Forall2_diag, Forall_forall. intros r _.
  cbn beta. unfold compose.
  by rewrite cell_at_insert_eq, has_label_filter_out, cell_at_deletes.
Qed.

Lemma float_one_not_zero : Num 1 <> Num 0.
Proof.
  intros Heq. apply (f_equal (fun v => cell_gt v 0)) in Heq. done.
Qed.

Section FeatureFacts.
Context (host : Host) (t t7 : frame).
Hypothesis Hfeatures : features_table host t = Ok t7.


(** The flag of every row, against the row of the table given. *)
Lemma features_flag : Forall2 (flag_exact host (columns t)) (rows t) (rows t7).
Proof.
  pose proof (flagged_flag host t) as Hflag.
  revert Hfeatures Hflag. unfold features_table.
  generalize (flagged host (redundant_removed t)). intros t2 Hf Hflag.
  assert (same_cell "Unreliable_Flag" t2 t7) as Hsame.
  { eapply same_cell_trans; [apply (numeric_converted_same host); label_solver|].
    eapply same_cell_trans; [apply (steps_4_6_same host); label_solver|].
    eapply calculated_same; [label_solver|exact Hf]. }
  eapply Forall2_chain; [|exact Hflag|exact Hsame].
  intros r r2 r7 Hr2 Hr7. cbn beta in Hr7. unfold flag_exact. rewrite Hr7, Hr2.
  pose proof float_one_not_zero as Hne.
  destruct (has_label "Crude Rate" (columns t)).
  - unfold unreliable_flag, astype_int. case_bool_decide; naive_solver.
  - naive_solver.
Qed.

End FeatureFacts.

Lemma sane_iff (r : row) :
  sane r = true <->
  exists p d,
    cell_at r "Population" = Num p /\ cell_at r "Deaths" = Num d /\
    (0 <? p)%float = true /\ (0 <=? d)%float = true.
Proof.
  unfold sane, cell_gt, cell_ge. rewrite andb_true_iff. split.
  - destruct (cell_at r "Population") as [|p]; [by intros [? _]|].
    destruct (cell_at r "Deaths") as [|d]; [by intros [_ ?]|].
    intros [? ?]. by exists p, d.
  - intros (p & d & -> & -> & ? & ?). done.
Qed.

Lemma sane_missing (r : row) :
  isna (cell_at r "Population") = true \/ isna (cell_at r "Deaths") = true ->
  sane r = false.
Proof.
  unfold sane, cell_gt, cell_ge, isna. intros [Hna|Hna].
  - destruct (cell_at r "Population") as [|p]; [done|].
    by rewrite (is_nan_eq _ Hna).
  - destruct (cell_at r "Deaths") as [|d]; [done|].
    rewrite (is_nan_eq _ Hna). apply andb_false_r.
Qed.

(** ** The merged and ordered table *)

Lemma insert_row_Forall {A} (P : A -> Prop) leb x l :
  P x -> Forall P l -> Forall P (insert_row leb x l).
Proof.
  intros Hx. induction 1 as [|y l Hy Hl IH]; simpl; [by repeat constructor|].
  destruct (leb x y); repeat constructor; done.
Qed.

Lemma stable_sort_Forall {A} (P : A -> Prop) leb l :
  Forall P l -> Forall P (stable_sort leb l).
Proof.
  induction 1 as [|x l Hx Hl IH]; simpl; [done|]. by apply insert_row_Forall.
Qed.

Lemma table_at_mid (st g : store) t : table_at ((st ++ [t]) ++ g) (length st) = t.
Proof.
  unfold table_at. rewrite lookup_app_l by (rewrite length_app; simpl; lia).
  by rewrite list_lookup_middle.
Qed.

Lemma sort_values_top (st : store) t by_ l st' :
  run (sort_values (length st) by_) (st ++ [t]) = (Ok l, st') ->
  table_at st' l = frame_sort by_ t.
Proof.
  unfold sort_values. rewrite run_bind, get_top.
  destruct (filter (fun c => c ∉ columns t) by_) as [|c miss]; [|done].
  intros [= <- <-]. apply table_at_top.
Qed.

(** The table [main] writes: the cleaned tables of the two files, one after
    the other, in the order of the key. *)
Lemma main_Ok host raw1 raw2 st out st' :
  run (main host raw1 raw2) st = (Ok out, st') ->
  exists t1 t2 c1 c2,
    clean_table host t1 = Ok c1 /\ clean_table host t2 = Ok c2 /\
    table_at st' out = frame_sort sort_key (frame_concat c1 c2).
Proof.
  unfold main. rewrite run_bind.
  destruct (run (load_raw (Ok raw1) (Ok raw2)) st) as [[[df1 df2]|e] st1]; [|done].
  rewrite run_bind.
  destruct (clean_mortality_run host st1 df1) as [g1 ->].
  destruct (clean_table host (table_at st1 df1)) as [c1|e] eqn:Hc1; [|done].
  rewrite run_bind.
  destruct (clean_mortality_run host ((st1 ++ g1) ++ [c1]) df2) as [g2 ->].
  destruct (clean_table host (table_at ((st1 ++ g1) ++ [c1]) df2))
    as [c2|e] eqn:Hc2; [|done].
  rewrite run_bind. unfold concat.
  rewrite run_bind, get_run, run_bind, get_run.
  rewrite table_at_top.
  rewrite <- (app_assoc _ g2 [c2]), table_at_mid.
  set (stc := ((st1 ++ g1) ++ [c1]) ++ g2 ++ [c2]).
  change (run (new (frame_concat c1 c2)) stc)
    with (Ok (length stc), stc ++ [frame_concat c1 c2]).
  cbv beta iota. rewrite run_bind.
  destruct (run (sort_values (length stc) sort_key) (stc ++ [frame_concat c1 c2]))
    as [[l|e] st2] eqn:Hsort; [|done].
  rewrite run_ret. intros [= <- <-].
  apply sort_values_top in Hsort. by eexists _, _, c1, c2.
Qed.

(** C1.  Every row of the table [main] writes has a population above 0 and
    a count of deaths of at least 0.  The table [clean_mortality] returns
    holds, of the table steps 1 to 7 leave, the rows that pass the sanity
    test and no other; a row passes exactly when its population and its
    deaths are numbers with [0 < Population] and [0 <= Deaths], and a row
    whose population or deaths is missing does not pass. *)
Theorem output_rows_sane (host : Host) :
  (forall raw1 raw2 st out st',
     run (main host raw1 raw2) st = (Ok out, st') ->
     Forall (fun r => sane r = true) (rows (table_at st' out))) /\
  (forall st df out st',
     run (clean_mortality host df) st = (Ok out, st') ->
     exists l7 st7,
       run (clean_features host df) st = (Ok l7, st7) /\
       rows (table_at st' out) =
         filter (fun r => sane r = true) (rows (table_at st7 l7))) /\
  (forall r : row,
     sane r = true <->
     exists p d,
       cell_at r "Population" = Num p /\ cell_at r "Deaths" = Num d /\
       (0 <? p)%float = true /\ (0 <=? d)%float = true) /\
  (forall r : row,
     isna (cell_at r "Population") = true \/ isna (cell_at r "Deaths") = true ->
     sane r = false).
Proof.
  split; [|split; [|split]].
  - intros raw1 raw2 st out st' Hrun.
    apply main_Ok in Hrun as (t1 & t2 & c1 & c2 & Hc1 & Hc2 & ->).
    apply clean_table_Ok in Hc1 as (? & _ & _ & Hr1).
    apply clean_table_Ok in Hc2 as (? & _ & _ & Hr2).
    cbn [rows frame_sort frame_concat]. apply stable_sort_Forall.
    rewrite Hr1, Hr2. apply Forall_app. split.
    + apply Forall_forall. by intros r [? _]%list_elem_of_filter.
    + apply Forall_forall. by intros r [? _]%list_elem_of_filter.
  - intros st df out st' Hrun.
    apply clean_mortality_Ok in Hrun as (l7 & st7 & ? & _ & ?). by exists l7, st7.
  - apply sane_iff.
  - apply sane_missing.
Qed.

(** The scenario of the specification: [main] writes one row, and it passes
    the sanity test. *)
Lemma output_rows_sane_scenario :
  Forall (fun r => sane r = true)
    (rows (table_at (run (main plain_host raw_a raw_b) []).2 12%nat)).
Proof.
  apply (proj1 (output_rows_sane plain_host) raw_a raw_b [] 12%nat).
  vm_compute. reflexivity.
Defined.

(** C2.  [clean_mortality] raises [KeyError] on every table that has no
    deaths column, the table [no_deaths] among them: step 3 skips the
    columns the table lacks, step 7 reads them unguarded. *)
Theorem clean_mortality_raises_without_deaths (host : Host) :
  (forall st df,
     has_label "Deaths" (columns (table_at st df)) = false ->
     (run (clean_mortality host df) st).1 = Raise (KeyError "Deaths")) /\
  (run (clean_mortality host 0%nat) [no_deaths]).1 = Raise (KeyError "Deaths").
Proof.
  assert (forall t, has_label "Deaths" (columns t) = false ->
            clean_table host t = Raise (KeyError "Deaths")) as Hraise.
  { intros t Ht. unfold clean_table, features_table, crude_rate_calculated.
    rewrite steps_4_6_label, columns_numeric_converted by label_solver.
    cbn [columns flagged map_rows redundant_removed frame_drop].
    rewrite has_label_add_ne, has_label_filter_out, Ht; [done| |label_solver].
    rewrite list_elem_of_filter. intros [_ Hin].
    assert ("Deaths" ∉ redundant_cols) by label_solver. done. }
  assert (forall st df,
            has_label "Deaths" (columns (table_at st df)) = false ->
            (run (clean_mortality host df) st).1 = Raise (KeyError "Deaths")) as Hrun.
  { intros st df Ht. destruct (clean_mortality_run host st df) as [g ->].
    by rewrite (Hraise _ Ht). }
  split; [exact Hrun|]. by apply Hrun.
Qed.

Lemma Forall2_common {A B C} (R : A -> B -> Prop) (S : A -> C -> Prop)
    (T : B -> C -> Prop) l l1 l2 :
  (forall x y z, R x y -> S x z -> T y z) ->
  Forall2 R l l1 -> Forall2 S l l2 -> Forall2 T l1 l2.
Proof.
  intros HT H1. revert l2.
  induction H1 as [|x y l l1 Hxy _ IH]; intros l2 H2; inv H2; constructor; eauto.
Qed.

(** C3.  In the table steps 1 to 7 leave, the flag of a row is 1 or 0, and it
    is 1 exactly when the table given has a crude-rate column and the text of
    the cell of the row, as it was given, is the marker; without the column
    every flag is 0.  The reading of the cell as a number plays no part:
    hosts that read numbers differently compute the same flags.  The rows
    [clean_mortality] returns are rows of that table. *)
Theorem unreliable_flag_exact (host : Host) :
  (forall st df l7 st7,
     run (clean_features host df) st = (Ok l7, st7) ->
     Forall2 (flag_exact host (columns (table_at st df)))
       (rows (table_at st df)) (rows (table_at st7 l7))) /\
  (forall host' st df l7 st7 l7' st7',
     num_str host' = num_str host ->
     run (clean_features host df) st = (Ok l7, st7) ->
     run (clean_features host' df) st = (Ok l7', st7') ->
     Forall2 (fun r7 r7' : row =>
                cell_at r7 "Unreliable_Flag" = cell_at r7' "Unreliable_Flag")
       (rows (table_at st7 l7)) (rows (table_at st7' l7'))) /\
  (forall st df out st',
     run (clean_mortality host df) st = (Ok out, st') ->
     exists l7 st7,
       run (clean_features host df) st = (Ok l7, st7) /\
       forall r, r ∈ rows (table_at st' out) -> r ∈ rows (table_at st7 l7)).
Proof.
  split; [|split].
  - intros st df l7 st7 Hrun. apply features_flag. by apply clean_features_Ok.
  - intros host' st df l7 st7 l7' st7' Hstr Hrun Hrun'.
    apply clean_features_Ok, features_flag in Hrun.
    apply clean_features_Ok, features_flag in Hrun'.
    eapply Forall2_common; [|exact Hrun|exact Hrun'].
    intros r r7 r7' [H01 Hiff] [H01' Hiff'].
    assert (str host' (cell_at r "Crude Rate") = str host (cell_at r "Crude Rate"))
      as Hs by (destruct (cell_at r "Crude Rate"); simpl; congruence).
    rewrite Hs in Hiff'. pose proof float_one_not_zero as Hne.
    destruct H01 as [E|E], H01' as [E'|E']; rewrite E, E' in *; try done.
    + destruct Hne. symmetry. apply Hiff', Hiff. done.
    + destruct Hne. symmetry. apply Hiff, Hiff'. done.
  - intros st df out st' Hrun.
    apply clean_mortality_Ok in Hrun as (l7 & st7 & Hrun & _ & ->).
    exists l7, st7. split; [done|]. by intros r [_ ?]%list_elem_of_filter.
Qed.

(** The scenario of the specification, first file: the one row has flag 0. *)
Lemma unreliable_flag_scenario :
  Forall2 (flag_exact plain_host (columns raw_a)) (rows raw_a)
    (rows (table_at (run (clean_features plain_host 0%nat) [raw_a]).2 3%nat)).
Proof.
  apply (proj1 (unreliable_flag_exact plain_host) [raw_a] 0%nat 3%nat).
  vm_compute. reflexivity.
Defined.








(** The same table with copy-on-write: the row is kept with the infinite
    value as its crude rate. *)
Lemma crude_rate_overflow_is_kept :
  copy_on_write cow_host = true /\
  (run (clean_mortality cow_host 0%nat) [huge_deaths]).1 = Ok 3%nat /\
  rows (table_at (run (clean_mortality cow_host 0%nat) [huge_deaths]).2 3%nat) =
    [huge_deaths_kept] /\
  cell_at huge_deaths_kept "CrudeRate_Calculated" = Num infinity /\
  (0x1p1023 / 1 * 100000)%float = infinity.
Proof. repeat split; vm_compute; reflexivity. Qed.

(** C9.  [clean_mortality] leaves every table of the store as it was, the
    one it is given among them, also when it raises: the store after the
    call begins with the store before it, and the table returned is a new
    one. *)
Theorem clean_mortality_keeps_tables (host : Host) (st : store) (df : loc) :
  take (length st) (run (clean_mortality host df) st).2 = st /\
  (forall l t, st !! l = Some t ->
     (run (clean_mortality host df) st).2 !! l = Some t) /\
  (forall out, (run (clean_mortality host df) st).1 = Ok out ->
     (length st <= out)%nat /\ is_Some ((run (clean_mortality host df) st).2 !! out)).
Proof.
  destruct (clean_mortality_run host st df) as [g ->].
  destruct (clean_table host (table_at st df)) as [t8|e]; cbn [fst snd].
  - rewrite <- app_assoc. split; [by rewrite take_app_length|]. split.
    + intros l t Hl. by apply lookup_app_l_Some.
    + intros out [= <-]. rewrite length_app. split; [lia|].
      rewrite app_assoc, <- length_app, list_lookup_middle; eauto.
  - split; [by rewrite take_app_length|]. split; [|done].
    intros l t Hl. by apply lookup_app_l_Some.
Qed.

(** The table of the first file is in the store, unchanged, after it was
    cleaned. *)
Lemma clean_mortality_keeps_raw_a :
  (run (clean_mortality plain_host 0%nat) [raw_a]).2 !! 0%nat = Some raw_a.
Proof.
  apply (proj1 (proj2 (clean_mortality_keeps_tables plain_host [raw_a] 0%nat))).
  reflexivity.
Defined.

(** The label 5–14 years, with an en-dash. *)
Lemma range_label_bounds_en_dash :
  parse_age_min plain_host (Str (cps "5" ++ EN_DASH :: cps "14 years")) = Some 5 /\
  parse_age_max plain_host (Str (cps "5" ++ EN_DASH :: cps "14 years")) = Some 14.
Proof.
  apply (range_label_bounds plain_host (cps "5" ++ EN_DASH :: cps "14 years")
           [] (cps "5") (cps "14") (cps " years") EN_DASH);
    try reflexivity; try done.
  - repeat constructor.
  - repeat constructor.
  - by right.
  - by intros c [= <-].
  - intros a c b Heq. exfalso.
    assert (PLUS ∈ a ++ c :: PLUS :: b) as Hin by set_solver.
    rewrite <- Heq in Hin. revert Hin.
    apply (bool_decide_eq_false_1 (PLUS ∈ _)). vm_compute. reflexivity.
Defined.

(** ** The order of the final table *)

Lemma str_leb_total a b : str_leb a b = false -> str_leb b a = true.
Proof.
  revert b. induction a as [|x a IH]; intros [|y b]; simpl; try done.
  destruct (N.ltb_spec x y) as [Hxy|Hxy]; [done|].
  destruct (N.eqb_spec x y) as [->|Hne].
  - rewrite N.ltb_irrefl, N.eqb_refl. apply IH.
  - intros _. destruct (N.ltb_spec y x); [done|lia].
Qed.

Lemma cell_leb_total a b : cell_leb a b = false -> cell_leb b a = true.
Proof.
  unfold cell_leb. destruct (isna b) eqn:Hb; [done|].
  destruct (isna a) eqn:Ha; [done|].
  destruct a as [s|x], b as [s'|y]; try done.
  - apply str_leb_total.
  - by apply float_leb_total.
Qed.

Lemma cell_leb_refl a : cell_leb a a = true.
Proof.
  pose proof (cell_leb_total a a) as Ht. destruct (cell_leb a a); auto.
Qed.

Lemma row_leb_total by_ (x y : row) :
  row_leb by_ x y = false -> row_leb by_ y x = true.
Proof.
  induction by_ as [|c by_ IH]; simpl; [done|].
  destruct (cell_leb (cell_at x c) (cell_at y c)) eqn:Hxy.
  - destruct (cell_leb (cell_at y c) (cell_at x c)); [apply IH|done].
  - intros _. by rewrite (cell_leb_total _ _ Hxy).
Qed.

(** Rows with the same key are not told apart by the order. *)
Lemma row_leb_same_key (x y : row) :
  key_of x = key_of y -> row_leb sort_key x y = true.
Proof.
  unfold key_of, sort_key. cbn [fmap list_fmap]. intros [= E1 E2 E3 E4 E5].
  cbn [row_leb]. by rewrite E1, E2, E3, E4, E5, !cell_leb_refl.
Qed.

Section StableSort.
Context {A : Type} (leb : A -> A -> bool).

(** A class of elements the order does not tell apart keeps its order. *)
Lemma insert_row_filter (P : A -> Prop) `{!forall x, Decision (P x)} x l :
  (forall y, P x -> P y -> leb x y = true) ->
  filter P (insert_row leb x l) = filter P (x :: l).
Proof.
  intros Htie. induction l as [|y l IH]; [done|]. simpl.
  destruct (leb x y) eqn:Hxy; [done|].
  rewrite (filter_cons _ y), IH, !(filter_cons _ x), (filter_cons _ y).
  destruct (decide (P x)) as [Hx|Hx]; [|done].
  destruct (decide (P y)) as [Hy|Hy]; [|done].
  rewrite Htie in Hxy; done.
Qed.

Lemma insert_row_perm x l : insert_row leb x l ≡ₚ x :: l.
Proof.
  induction l as [|y l IH]; simpl; [done|].
  destruct (leb x y); [done|]. rewrite IH. apply Permutation_swap.
Qed.

Lemma stable_sort_perm l : stable_sort leb l ≡ₚ l.
Proof.
  induction l as [|x l IH]; simpl; [done|]. by rewrite insert_row_perm, IH.
Qed.

Lemma stable_sort_filter (P : A -> Prop) `{!forall x, Decision (P x)} l :
  (forall x y, P x -> P y -> leb x y = true) ->
  filter P (stable_sort leb l) = filter P l.
Proof.
  intros Htie. induction l as [|x l IH]; [done|]. simpl.
  rewrite insert_row_filter by (intros y; apply Htie).
  by rewrite !filter_cons, IH.
Qed.

Hypothesis leb_total : forall x y, leb x y = false -> leb y x = true.

Lemma insert_row_sorted x l :
  Sorted (fun a b => leb a b = true) l ->
  Sorted (fun a b => leb a b = true) (insert_row leb x l).
Proof.
  induction 1 as [|y l Hl IH Hhd]; simpl; [by repeat constructor|].
  destruct (leb x y) eqn:Hxy; [by repeat constructor|].
  constructor; [done|].
  destruct Hhd as [|z l Hyz]; simpl.
  - constructor. by apply leb_total.
  - destruct (leb x z); constructor; [by apply leb_total|done].
Qed.

Lemma stable_sort_sorted l : Sorted (fun a b => leb a b = true) (stable_sort leb l).
Proof.
  induction l as [|x l IH]; simpl; [constructor|]. by apply insert_row_sorted.
Qed.

(** A sorted list is left as it is. *)
Lemma stable_sort_of_sorted l :
  Sorted (fun a b => leb a b = true) l -> stable_sort leb l = l.
Proof.
  induction 1 as [|x l Hl IH Hhd]; simpl; [done|]. rewrite IH.
  destruct Hhd as [|y l Hxy]; simpl; [done|]. by rewrite Hxy.
Qed.

Lemma stable_sort_idempotent l :
  stable_sort leb (stable_sort leb l) = stable_sort leb l.
Proof. apply stable_sort_of_sorted, stable_sort_sorted. Qed.

End StableSort.

(** C8.  The sort of the merged table by the key (State, Year, Age_Min, Sex,
    Race) is stable: the rows of any one key, and more generally the rows of
    any class that the order does not tell apart, come in the sorted table in
    the order they had.  It is idempotent: a table that was sorted is left as
    it is by the same sort.  The sorted table holds the rows of the table, in
    the order of the key, and [sort_values] makes this table. *)
Theorem sort_stable_idempotent (t : frame) :
  (forall k : list cell,
     filter (fun r => key_of r = k) (rows (frame_sort sort_key t)) =
     filter (fun r => key_of r = k) (rows t)) /\
  (forall (P : row -> Prop) (dec : forall r, Decision (P r)),
     (forall r1 r2, P r1 -> P r2 -> row_leb sort_key r1 r2 = true) ->
     filter P (rows (frame_sort sort_key t)) = filter P (rows t)) /\
  frame_sort sort_key (frame_sort sort_key t) = frame_sort sort_key t /\
  rows (frame_sort sort_key t) ≡ₚ rows t /\
  Sorted (fun r1 r2 => row_leb sort_key r1 r2 = true) (rows (frame_sort sort_key t)) /\
  (forall st l l' st',
     table_at st l = t ->
     run (sort_values l sort_key) st = (Ok l', st') ->
     table_at st' l' = frame_sort sort_key t).
Proof.
  split; [|split; [|split; [|split; [|split]]]].
  - intros k. cbn [rows frame_sort]. apply stable_sort_filter.
    intros x y Hx Hy. apply row_leb_same_key. congruence.
  - intros P dec Htie. cbn [rows frame_sort]. by apply stable_sort_filter.
  - unfold frame_sort. cbn [rows columns]. f_equal.
    apply stable_sort_idempotent, row_leb_total.
  - cbn [rows frame_sort]. apply stable_sort_perm.
  - cbn [rows frame_sort]. apply stable_sort_sorted, row_leb_total.
  - intros st l l' st' <-. unfold sort_values. rewrite run_bind, get_run.
    destruct (filter _ sort_key) as [|c miss]; [|done].
    intros [= <- <-]. apply table_at_top.
Qed.

(** * Further properties of the parsers *)

Section MoreAgeBandFacts.
Context (host : Host).

(** The range pattern matches only where a digit, a hyphen or an en-dash and
    a digit follow one another. *)
Lemma range_at_Some s g1 g2 :
  range_at host s = Some (g1, g2) ->
  exists a c sep d b,
    s = a ++ c :: sep :: d :: b /\
    is_digit host c = true /\ (sep = HYPHEN \/ sep = EN_DASH) /\
    is_digit host d = true.
Proof.
  intros (ds & rest & -> & Hne & Hds & Hk)%digits_then_Some.
  destruct rest as [|sep rest]; [done|].
  destruct ((sep =? HYPHEN)%N || (sep =? EN_DASH)%N) eqn:Hsep; [|done].
  apply digits_then_Some in Hk as (ds2 & b & -> & Hne2 & Hds2 & _).
  destruct (exists_last Hne) as (a & c & ->).
  apply Forall_app in Hds as [_ [Hc _]%Forall_cons].
  destruct ds2 as [|d ds2]; [done|].
  apply Forall_cons in Hds2 as [Hd _].
  exists a, c, sep, d, (ds2 ++ b). repeat split; [by rewrite <- app_assoc|done| |done].
  apply orb_true_iff in Hsep as [?%N.eqb_eq | ?%N.eqb_eq]; auto.
Qed.

Lemma re_search_range_None pre s :
  (forall a c sep d b,
     pre ++ s = a ++ c :: sep :: d :: b ->
     is_digit host c = true -> sep = HYPHEN \/ sep = EN_DASH ->
     is_digit host d = false) ->
  re_search (range_at host) s = None.
Proof.
  revert pre. induction s as [|x s IH]; intros pre Hno.
  - simpl. destruct (range_at host []) as [[g1 g2]|] eqn:E; [|done].
    apply range_at_Some in E as (a & c & sep & d & b & Heq & _). by destruct a.
  - simpl. destruct (range_at host (x :: s)) as [[g1 g2]|] eqn:E.
    + apply range_at_Some in E as (a & c & sep & d & b & Heq & Hc & Hsep & Hd).
      rewrite (Hno (pre ++ a) c sep d b) in Hd; [done| |done..].
      by rewrite Heq, app_assoc.
    + apply (IH (pre ++ [x])). intros a c sep d b Heq. apply (Hno a c sep d b).
      by rewrite <- Heq, <- app_assoc.
Qed.

Lemma plus_at_no_digit c s : is_digit host c = false -> plus_at host (c :: s) = None.
Proof. intros Hc. apply digits_then_no_digit. by intros ? [= <-]. Qed.

Lemma number_at_no_digit c s : is_digit host c = false -> number_at host (c :: s) = None.
Proof. intros Hc. apply digits_then_no_digit. by intros ? [= <-]. Qed.

(** The leftmost match of the plus pattern in a text of the plus shape. *)
Lemma re_search_plus pre n post :
  Forall (fun c => is_digit host c = false) pre ->
  n <> [] -> Forall (fun c => is_digit host c = true) n ->
  re_search (plus_at host) (pre ++ n ++ PLUS :: post) = Some n.
Proof.
  intros Hpre Hne Hn.
  rewrite (re_search_skip host); [|apply plus_at_no_digit|done].
  apply re_search_here. unfold plus_at.
  apply digits_then_greedy; [done..| |done].
  by intros ? [= <-].
Qed.

(** The first number of a text. *)
Lemma re_search_number pre n post :
  Forall (fun c => is_digit host c = false) pre ->
  n <> [] -> Forall (fun c => is_digit host c = true) n ->
  (forall c, head post = Some c -> is_digit host c = false) ->
  re_search (number_at host) (pre ++ n ++ post) = Some n.
Proof.
  intros Hpre Hne Hn Hpost.
  rewrite (re_search_skip host); [|apply number_at_no_digit|done].
  apply re_search_here. unfold number_at. by apply digits_then_greedy.
Qed.

(** A text without a digit has no match of any of the three patterns. *)
Lemma re_search_no_digit {A} (at_head : pystr -> option A) s :
  at_head [] = None ->
  (forall c s', is_digit host c = false -> at_head (c :: s') = None) ->
  Forall (fun c => is_digit host c = false) s ->
  re_search at_head s = None.
Proof.
  intros Hnil Hat. induction 1 as [|c s Hc _ IH]; simpl; [by rewrite Hnil|].
  by rewrite Hat.
Qed.

End MoreAgeBandFacts.

(** X1.  The two parsers are missing on the same labels: the minimum is
    missing exactly when the maximum is. *)
Theorem parsers_missing_together (host : Host) (group : cell) :
  parse_age_min host group = None <-> parse_age_max host group = None.
Proof.
  unfold parse_age_min, parse_age_max.
  destruct (isna group); [done|]. cbv zeta.
  destruct (contains (cps "under") _); [done|].
  destruct (_ || _); [done|].
  repeat match goal with
    | |- context [re_search ?f ?s] => destruct (re_search f s) as [?|]
    | p : (pystr * pystr)%type |- _ => destruct p
    end; done.
Qed.

(** X2.  The open-ended rule.  A label whose lower-cased text reads
    [pre N + post], where [N] is a run of digits with no digit before it,
    and which holds none of the words under, not and unknown, has the
    minimum [N]; when moreover no digit, separator and digit follow one
    another in it, its maximum is [N + 9]. *)
Theorem plus_label_bounds (host : Host) (label pre n post : pystr) :
  lower host label = pre ++ n ++ PLUS :: post ->
  Forall (fun c => is_digit host c = false) pre ->
  n <> [] -> Forall (fun c => is_digit host c = true) n ->
  contains (cps "under") (lower host label) = false ->
  contains (cps "not") (lower host label) = false ->
  contains (cps "unknown") (lower host label) = false ->
  parse_age_min host (Str label) = Some (int_of host n) /\
  ((forall a c sep d b,
      lower host label = a ++ c :: sep :: d :: b ->
      is_digit host c = true -> sep = HYPHEN \/ sep = EN_DASH ->
      is_digit host d = false) ->
   parse_age_max host (Str label) = Some (int_of host n + 9)).
Proof.
  intros Hshape Hpre Hne Hn Hu Hnot Hk.
  assert (re_search (plus_at host) (lower host label) = Some n) as Hplus
    by (rewrite Hshape; by apply re_search_plus).
  unfold parse_age_min, parse_age_max. cbn [isna]. cbv zeta. cbn [str].
  rewrite Hu, Hnot, Hk, Hplus. split; [done|].
  intros Hrange. by rewrite (re_search_range_None host [] _ Hrange).
Qed.

(** The label 85+ years. *)
Lemma plus_label_bounds_85 :
  parse_age_min plain_host (Str (cps "85+ years")) = Some 85 /\
  parse_age_max plain_host (Str (cps "85+ years")) = Some 94.
Proof.
  assert (Forall (fun c => is_digit plain_host c = true) (cps "85")) as Hn
    by repeat constructor.
  destruct (plus_label_bounds plain_host (cps "85+ years") [] (cps "85") (cps " years")
              eq_refl ltac:(constructor) ltac:(done) Hn eq_refl eq_refl eq_refl)
    as [Hmin Hmax].
  split; [exact Hmin|]. apply Hmax.
    intros a c sep d b Heq _ Hsep. exfalso.
    assert (sep ∈ a ++ c :: sep :: d :: b) as Hin by set_solver.
    rewrite <- Heq in Hin. revert Hin.
    destruct Hsep as [-> | ->];
      apply (bool_decide_eq_false_1 (_ ∈ _)); vm_compute; reflexivity.
Defined.

(** X3.  The fallback.  A label whose lower-cased text holds none of the
    words under, not and unknown, no digit followed by a plus sign and no
    digit, separator and digit in a row, and whose first number is [N], has
    [N] as its minimum and as its maximum. *)
Theorem number_label_bounds (host : Host) (label pre n post : pystr) :
  lower host label = pre ++ n ++ post ->
  Forall (fun c => is_digit host c = false) pre ->
  n <> [] -> Forall (fun c => is_digit host c = true) n ->
  (forall c, head post = Some c -> is_digit host c = false) ->
  contains (cps "under") (lower host label) = false ->
  contains (cps "not") (lower host label) = false ->
  contains (cps "unknown") (lower host label) = false ->
  (forall a c b, lower host label = a ++ c :: PLUS :: b -> is_digit host c = false) ->
  (forall a c sep d b,
     lower host label = a ++ c :: sep :: d :: b ->
     is_digit host c = true -> sep = HYPHEN \/ sep = EN_DASH ->
     is_digit host d = false) ->
  parse_age_min host (Str label) = Some (int_of host n) /\
  parse_age_max host (Str label) = Some (int_of host n).
Proof.
  intros Hshape Hpre Hne Hn Hpost Hu Hnot Hk Hplus Hrange.
  apply (re_search_plus_None host []) in Hplus.
  apply (re_search_range_None host []) in Hrange.
  assert (re_search (number_at host) (lower host label) = Some n) as Hnum
    by (rewrite Hshape; by apply re_search_number).
  unfold parse_age_min, parse_age_max. cbn [isna]. cbv zeta. cbn [str].
  by rewrite Hu, Hnot, Hk, Hplus, Hrange, Hnum.
Qed.

(** The label 1 year. *)
Lemma number_label_bounds_1_year :
  parse_age_min plain_host (Str (cps "1 year")) = Some 1 /\
  parse_age_max plain_host (Str (cps "1 year")) = Some 1.
Proof.
  apply (number_label_bounds plain_host (cps "1 year") [] (cps "1") (cps " year"));
    try reflexivity; try done.
  - repeat constructor.
  - by intros c [= <-].
  - intros a c b Heq. exfalso.
    assert (PLUS ∈ a ++ c :: PLUS :: b) as Hin by set_solver.
    rewrite <- Heq in Hin. revert Hin.
    apply (bool_decide_eq_false_1 (PLUS ∈ _)). vm_compute. reflexivity.
  - intros a c sep d b Heq _ Hsep. exfalso.
    assert (sep ∈ a ++ c :: sep :: d :: b) as Hin by set_solver.
    rewrite <- Heq in Hin. revert Hin.
    destruct Hsep as [-> | ->];
      apply (bool_decide_eq_false_1 (_ ∈ _)); vm_compute; reflexivity.
Defined.

(** X4.  A label without a digit, and without the word under, is missing on
    both bounds. *)
Theorem digitless_label_missing (host : Host) (label : pystr) :
  Forall (fun c => is_digit host c = false) (lower host label) ->
  contains (cps "under") (lower host label) = false ->
  parse_age_min host (Str label) = None /\ parse_age_max host (Str label) = None.
Proof.
  intros Hno Hu.
  unfold parse_age_min, parse_age_max. cbn [isna]. cbv zeta. cbn [str]. rewrite Hu.
  destruct (_ || _); [done|].
  rewrite (re_search_no_digit host (plus_at host)),
          (re_search_no_digit host (range_at host)),
          (re_search_no_digit host (number_at host)); try done.
  - apply number_at_no_digit.
  - apply range_at_no_digit.
  - apply plus_at_no_digit.
Qed.

(** The label Ages, of letters only. *)
Lemma digitless_label_missing_ages :
  parse_age_min plain_host (Str (cps "All ages")) = None /\
  parse_age_max plain_host (Str (cps "All ages")) = None.
Proof.
  apply (digitless_label_missing plain_host (cps "All ages")); [|reflexivity].
  vm_compute. repeat constructor.
Defined.

(** * Further properties of the tables *)

(** ** Running [load_raw] and [main] *)

Lemma new_run (st : store) t : run (new t) st = (Ok (length st), st ++ [t]).
Proof. reflexivity. Qed.

Lemma put_run (st : store) l t : run (put l t) st = (Ok tt, <[l := t]> st).
Proof. reflexivity. Qed.

Lemma table_at_here (st g : store) t : table_at (st ++ t :: g) (length st) = t.
Proof. unfold table_at. by rewrite list_lookup_middle. Qed.

Lemma insert_here (st g : store) t t' :
  <[length st := t']> (st ++ t :: g) = st ++ t' :: g.
Proof. rewrite insert_app_r_alt by lia. by rewrite Nat.sub_diag. Qed.

Lemma setitem_scalar_at (st g : store) n t c v :
  n = length st ->
  run (setitem_scalar n c v) (st ++ t :: g) =
  (Ok tt, st ++ frame_setscalar c v t :: g).
Proof.
  intros ->. unfold setitem_scalar.
  rewrite run_bind, get_run, table_at_here, put_run. by rewrite insert_here.
Qed.

(** [load_raw] makes two new tables, after the ones there are and any table
    of the renaming, and returns their references. *)
Lemma load_raw_run (raw1 raw2 : frame) (st : store) :
  exists g,
    run (load_raw (Ok raw1) (Ok raw2)) st =
    (Ok (length st, length (st ++ loaded_first raw1 :: g)),
     (st ++ loaded_first raw1 :: g) ++ [loaded_second raw2]).
Proof.
  unfold load_raw, read_csv, loaded_second, race_unified, loaded_first.
  set (T1 := frame_setscalar "Source_File" (Str (cps "2004-2017")) raw1).
  rewrite run_bind, new_run, run_bind, new_run, run_bind.
  unfold columns_of. rewrite run_bind, get_run, table_at_top, run_ret.
  destruct (has_label "Single Race 6" (columns raw2)).
  - set (ren := frame_rename "Single Race 6" "Race" raw2).
    rewrite run_bind. unfold rename. rewrite run_bind, get_run, table_at_top, new_run.
    fold ren. rewrite run_bind. rewrite <- !app_assoc. cbn [app].
    rewrite (setitem_scalar_at st [raw2; ren] (length st) raw1) by done.
    fold T1. rewrite run_bind.
    replace (st ++ [T1; raw2; ren]) with ((st ++ [T1; raw2]) ++ [ren])
      by (by rewrite <- app_assoc).
    rewrite (setitem_scalar_at (st ++ [T1; raw2]) [] _ ren)
      by (by rewrite !length_app).
    rewrite run_ret. exists [raw2]. rewrite !length_app. done.
  - rewrite run_bind, run_ret, run_bind. rewrite <- !app_assoc. cbn [app].
    rewrite (setitem_scalar_at st [raw2] (length st) raw1) by done.
    fold T1. rewrite run_bind.
    replace (st ++ [T1; raw2]) with ((st ++ [T1]) ++ [raw2])
      by (by rewrite <- app_assoc).
    rewrite (setitem_scalar_at (st ++ [T1]) [] _ raw2) by (by rewrite !length_app).
    rewrite run_ret. exists []. rewrite !length_app. done.
Qed.

Lemma sort_values_top_run (st : store) t by_ :
  run (sort_values (length st) by_) (st ++ [t]) =
  match sorted_table by_ t with
  | Ok t' => (Ok (length (st ++ [t])), (st ++ [t]) ++ [t'])
  | Raise e => (Raise e, st ++ [t])
  end.
Proof.
  unfold sort_values, sorted_table. rewrite run_bind, get_top.
  by destruct (filter (fun c => c ∉ columns t) by_).
Qed.

Lemma concat_run (st : store) a b :
  run (concat a b) st =
  (Ok (length st), st ++ [frame_concat (table_at st a) (table_at st b)]).
Proof. reflexivity. Qed.

(** What [main] computes: the table of the pipeline, made last, or its
    exception. *)
Lemma main_run (host : Host) (raw1 raw2 : frame) (st : store) :
  exists g,
    run (main host raw1 raw2) st =
    match pipeline_table host raw1 raw2 with
    | Ok t => (Ok (length (st ++ g)), (st ++ g) ++ [t])
    | Raise e => (Raise e, st ++ g)
    end.
Proof.
  unfold main, pipeline_table. rewrite run_bind.
  destruct (load_raw_run raw1 raw2 st) as [g0 ->]. cbv beta iota.
  set (L1 := loaded_first raw1). set (L2 := loaded_second raw2).
  set (st1 := (st ++ L1 :: g0) ++ [L2]).
  assert (table_at st1 (length st) = L1) as H1.
  { unfold st1. rewrite <- app_assoc. apply table_at_here. }
  assert (forall g, table_at (st1 ++ g) (length (st ++ L1 :: g0)) = L2) as H2.
  { intros g. unfold st1. apply table_at_mid. }
  clearbody L1 L2.
  assert (exists g', st1 = st ++ g') as [g' Hst1].
  { exists ((L1 :: g0) ++ [L2]). unfold st1. by rewrite app_assoc. }
  clearbody st1.
  rewrite run_bind.
  destruct (clean_mortality_run host st1 (length st)) as [g1 ->]. rewrite H1.
  destruct (clean_table host L1) as [c1|e].
  2:{ exists (g' ++ g1). by rewrite Hst1, app_assoc. }
  rewrite run_bind.
  destruct (clean_mortality_run host ((st1 ++ g1) ++ [c1]) (length (st ++ L1 :: g0)))
    as [g2 ->].
  rewrite <- (app_assoc st1 g1 [c1]), H2.
  destruct (clean_table host L2) as [c2|e].
  2:{ exists (g' ++ (g1 ++ [c1]) ++ g2). by rewrite Hst1, !app_assoc. }
  rewrite run_bind, concat_run.
  rewrite table_at_top.
  rewrite <- (app_assoc (st1 ++ g1 ++ [c1]) g2 [c2]).
  rewrite (app_assoc st1 g1 [c1]), table_at_mid.
  set (stc := ((st1 ++ g1) ++ [c1]) ++ g2 ++ [c2]).
  rewrite run_bind, sort_values_top_run.
  assert (exists gc, stc = st ++ gc) as [gc Hstc].
  { exists (g' ++ g1 ++ [c1] ++ g2 ++ [c2]). unfold stc.
    by rewrite Hst1, <- !app_assoc. }
  clearbody stc.
  destruct (sorted_table sort_key (frame_concat c1 c2)) as [t|e].
  - rewrite run_ret. exists (gc ++ [frame_concat c1 c2]).
    by rewrite Hstc, !app_assoc.
  - exists (gc ++ [frame_concat c1 c2]). by rewrite Hstc, !app_assoc.
Qed.

(** ** Labels and cells of the table of features *)

Lemma has_label_filter_in c (cs cols : list string) :
  c ∈ cs -> has_label c (filter (fun x => x ∉ cs) cols) = false.
Proof.
  intros Hc. unfold has_label. apply bool_decide_eq_false.
  rewrite list_elem_of_filter. naive_solver.
Qed.

Lemma has_label_rename c old c' (cols : list string) :
  c <> old -> c <> c' ->
  has_label c (map (fun x => if bool_decide (x = old) then c' else x) cols) =
  has_label c cols.
Proof.
  intros Ho Hn. unfold has_label. apply bool_decide_ext.
  rewrite list_elem_of_fmap. split.
  - intros (x & -> & Hx). by case_bool_decide.
  - intros Hc. exists c. by rewrite bool_decide_false.
Qed.

Lemma redundant_removed_label c t :
  c ∉ redundant_cols ->
  has_label c (columns (redundant_removed t)) = has_label c (columns t).
Proof.
  intros Hc. cbn [columns redundant_removed frame_drop].
  apply has_label_filter_out. rewrite list_elem_of_filter. naive_solver.
Qed.

Lemma redundant_removed_gone c t :
  c ∈ redundant_cols -> has_label c (columns (redundant_removed t)) = false.
Proof.
  intros Hc. cbn [columns redundant_removed frame_drop].
  unfold has_label. apply bool_decide_eq_false.
  rewrite !list_elem_of_filter. naive_solver.
Qed.

Section SixSteps.
Context (host : Host).

(** The table steps 2 to 6 make of a table. *)
Let six (t1 : frame) : frame :=
  age_parsed host (sex_cleaned (crude_rate_converted host
    (numeric_converted host (flagged host t1)))).

Lemma six_label c t1 :
  c ∉ ["Unreliable_Flag"; "Crude Rate"; "CrudeRate_Reported";
       "Age_Min"; "Age_Max"; "Age_Mid"] ->
  has_label c (columns (six t1)) = has_label c (columns t1).
Proof.
  intros Hc. unfold six.
  rewrite steps_4_6_label, columns_numeric_converted by set_solver.
  cbn [columns flagged map_rows]. apply has_label_add_ne. set_solver.
Qed.

Lemma six_same c t1 :
  c ∉ ["Unreliable_Flag"; "Year"; "Deaths"; "Population"; "Crude Rate";
       "CrudeRate_Reported"; "Sex"; "Age_Min"; "Age_Max"; "Age_Mid"] ->
  same_cell c t1 (six t1).
Proof.
  intros Hc. unfold six.
  eapply same_cell_trans; [apply (flagged_same host); set_solver|].
  eapply same_cell_trans; [apply (numeric_converted_same host); set_solver|].
  apply steps_4_6_same. set_solver.
Qed.

Lemma features_table_eq t :
  features_table host t = crude_rate_calculated host (six (redundant_removed t)).
Proof. reflexivity. Qed.

(** The labels of the table of features. *)
Lemma features_label c t t7 :
  features_table host t = Ok t7 ->
  c ∉ redundant_cols ->
  c ∉ ["Unreliable_Flag"; "Crude Rate"; "CrudeRate_Reported";
       "Age_Min"; "Age_Max"; "Age_Mid"; "CrudeRate_Calculated"] ->
  has_label c (columns t7) = has_label c (columns t).
Proof.
  rewrite features_table_eq. intros (_ & _ & ->)%crude_rate_calculated_Ok Hr Hc.
  cbn [columns map_rows].
  rewrite has_label_add_ne, six_label, redundant_removed_label by set_solver. done.
Qed.

Lemma features_no_redundant c t t7 :
  features_table host t = Ok t7 ->
  c ∈ redundant_cols -> has_label c (columns t7) = false.
Proof.
  rewrite features_table_eq. intros (_ & _ & ->)%crude_rate_calculated_Ok Hr.
  cbn [columns map_rows].
  assert (c ∉ ["Unreliable_Flag"; "Crude Rate"; "CrudeRate_Reported";
               "Age_Min"; "Age_Max"; "Age_Mid"; "CrudeRate_Calculated"]) as Hc.
  { unfold redundant_cols in Hr. rewrite !elem_of_cons, elem_of_nil in Hr.
    destruct Hr as [->|[->|[->|[->|[->|[->|[]]]]]]]; label_solver. }
  rewrite has_label_add_ne, six_label by set_solver.
  by apply redundant_removed_gone.
Qed.

Lemma features_no_crude_rate t t7 :
  features_table host t = Ok t7 -> has_label "Crude Rate" (columns t7) = false.
Proof.
  rewrite features_table_eq. intros (_ & _ & ->)%crude_rate_calculated_Ok.
  cbn [columns map_rows]. rewrite has_label_add_ne by label_solver.
  unfold six. generalize (numeric_converted host (flagged host (redundant_removed t))).
  intros t3. unfold age_parsed, sex_cleaned.
  assert (has_label "Crude Rate" (columns (crude_rate_converted host t3)) = false) as Hcr.
  { unfold crude_rate_converted.
    destruct (has_label "Crude Rate" (columns t3)) eqn:E; cbn [columns map_rows frame_drop frame_setscalar].
    - apply has_label_filter_in. set_solver.
    - by rewrite has_label_add_ne by label_solver. }
  repeat match goal with
    | |- context [if ?b then _ else _] => destruct b
    end; cbn [columns map_rows];
    rewrite ?has_label_add_ne by label_solver; done.
Qed.

Lemma features_new_labels t t7 :
  features_table host t = Ok t7 ->
  has_label "Unreliable_Flag" (columns t7) = true /\
  has_label "CrudeRate_Reported" (columns t7) = true /\
  has_label "CrudeRate_Calculated" (columns t7) = true.
Proof.
  rewrite features_table_eq. intros (_ & _ & ->)%crude_rate_calculated_Ok.
  cbn [columns map_rows]. rewrite has_label_add.
  rewrite !has_label_add_ne by label_solver. unfold six. split; [|split; [|done]].
  - rewrite steps_4_6_label, columns_numeric_converted by label_solver.
    apply has_label_add.
  - generalize (numeric_converted host (flagged host (redundant_removed t))).
    intros t3.
    assert (has_label "CrudeRate_Reported" (columns (crude_rate_converted host t3)) = true)
      as Hcr.
    { unfold crude_rate_converted.
      destruct (has_label "Crude Rate" (columns t3));
        cbn [columns map_rows frame_drop frame_setscalar].
      - rewrite has_label_filter_out by label_solver. apply has_label_add.
      - apply has_label_add. }
    unfold age_parsed, sex_cleaned.
    repeat match goal with
      | |- context [if ?b then _ else _] => destruct b
      end; cbn [columns map_rows];
      rewrite ?has_label_add_ne by label_solver; done.
Qed.

End SixSteps.

Section CleanedColumns.
Context (host : Host).

Lemma five_label c t1 :
  c ∉ ["Unreliable_Flag"; "Crude Rate"; "CrudeRate_Reported"] ->
  has_label c (columns (sex_cleaned (crude_rate_converted host
                 (numeric_converted host (flagged host t1))))) =
  has_label c (columns t1).
Proof.
  intros Hc. unfold sex_cleaned, crude_rate_converted.
  repeat match goal with
    | |- context [if ?b then _ else _] => destruct b eqn:?
    end; cbn [columns map_rows frame_drop frame_setscalar];
    rewrite ?has_label_filter_out, ?has_label_add_ne, columns_numeric_converted
      by set_solver;
    cbn [columns flagged map_rows]; apply has_label_add_ne; set_solver.
Qed.

Lemma features_age_label c t t7 :
  features_table host t = Ok t7 ->
  c ∈ ["Age_Min"; "Age_Max"; "Age_Mid"] ->
  has_label c (columns t7) =
  has_label "Ten-Year Age Groups" (columns t) || has_label c (columns t).
Proof.
  rewrite features_table_eq. intros (_ & _ & ->)%crude_rate_calculated_Ok Hc.
  cbn [columns map_rows].
  assert ((c <> "CrudeRate_Calculated") /\ (c ∉ redundant_cols) /\
          (c ∉ ["Unreliable_Flag"; "Crude Rate"; "CrudeRate_Reported"]))
    as (H1 & H2 & H3).
  { rewrite !elem_of_cons, elem_of_nil in Hc.
    destruct Hc as [->|[->|[->|[]]]]; repeat split; label_solver. }
  rewrite has_label_add_ne by done.
  assert ("Ten-Year Age Groups" ∉
            ["Unreliable_Flag"; "Crude Rate"; "CrudeRate_Reported"]) as H4
    by label_solver.
  pose proof (five_label "Ten-Year Age Groups" (redundant_removed t) H4) as HG.
  pose proof (five_label c (redundant_removed t) H3) as Hc5.
  rewrite redundant_removed_label in HG by label_solver.
  rewrite redundant_removed_label in Hc5 by done.
  unfold age_parsed. rewrite HG.
  destruct (has_label "Ten-Year Age Groups" (columns t)); [|by rewrite Hc5].
  cbn [columns map_rows orb].
  rewrite !elem_of_cons, elem_of_nil in Hc.
  destruct Hc as [->|[->|[->|[]]]].
  - apply has_label_add_other, has_label_add_other, has_label_add.
  - apply has_label_add_other, has_label_add.
  - apply has_label_add.
Qed.

Lemma features_table_total t :
  has_label "Deaths" (columns t) = true ->
  has_label "Population" (columns t) = true ->
  exists t7, features_table host t = Ok t7.
Proof.
  intros HD HP. rewrite features_table_eq. unfold crude_rate_calculated.
  rewrite !six_label, !redundant_removed_label, HD, HP by label_solver. eauto.
Qed.

Lemma clean_table_total t :
  has_label "Deaths" (columns t) = true ->
  has_label "Population" (columns t) = true ->
  exists t8, clean_table host t = Ok t8.
Proof.
  intros HD HP. unfold clean_table.
  destruct (features_table_total t HD HP) as [t7 Hf]. rewrite Hf.
  unfold sanity_filtered.
  rewrite !(features_label host _ t _ Hf), HD, HP by label_solver. eauto.
Qed.

Lemma clean_table_no_deaths t :
  has_label "Deaths" (columns t) = false ->
  clean_table host t = Raise (KeyError "Deaths").
Proof.
  intros HD. unfold clean_table. rewrite features_table_eq.
  unfold crude_rate_calculated.
  by rewrite six_label, redundant_removed_label, HD by label_solver.
Qed.

Lemma clean_table_no_population t :
  has_label "Deaths" (columns t) = true ->
  has_label "Population" (columns t) = false ->
  clean_table host t = Raise (KeyError "Population").
Proof.
  intros HD HP. unfold clean_table. rewrite features_table_eq.
  unfold crude_rate_calculated.
  by rewrite !six_label, !redundant_removed_label, HD, HP by label_solver.
Qed.

Lemma clean_mortality_outcome st df :
  (run (clean_mortality host df) st).1 =
  match clean_table host (table_at st df) with
  | Ok _ => Ok (length (run (clean_mortality host df) st).2 - 1)%nat
  | Raise e => Raise e
  end.
Proof.
  destruct (clean_mortality_run host st df) as [g ->].
  destruct (clean_table host (table_at st df)); [|done].
  cbn [fst snd]. rewrite (length_app _ [_]). cbn [length]. f_equal. lia.
Qed.

End CleanedColumns.

(** X5.  On a table whose age bounds are at most 2^53, or that has no
    age-group column, [clean_mortality] returns a table exactly when the
    table has a deaths and a population column; without the deaths column it
    raises [KeyError] on Deaths, and with it but without the population
    column, on Population. *)
Theorem clean_mortality_returns_iff (host : Host) (st : store) (df : loc) :
  ages_exact host (table_at st df) = true ->
  (has_label "Deaths" (columns (table_at st df)) = true ->
   has_label "Population" (columns (table_at st df)) = true ->
   exists out, (run (clean_mortality host df) st).1 = Ok out) /\
  (has_label "Deaths" (columns (table_at st df)) = false ->
   (run (clean_mortality host df) st).1 = Raise (KeyError "Deaths")) /\
  (has_label "Deaths" (columns (table_at st df)) = true ->
   has_label "Population" (columns (table_at st df)) = false ->
   (run (clean_mortality host df) st).1 = Raise (KeyError "Population")).
Proof.
  intros _. rewrite clean_mortality_outcome. split; [|split].
  - intros HD HP. destruct (clean_table_total host _ HD HP) as [t8 ->]. eauto.
  - intros HD. by rewrite clean_table_no_deaths.
  - intros HD HP. by rewrite clean_table_no_population.
Qed.

(** The table of the first file, with the band 45-54 years: [clean_mortality]
    returns. *)
Lemma clean_mortality_returns_raw_a :
  ages_exact plain_host raw_a = true /\
  exists out, (run (clean_mortality plain_host 0%nat) [raw_a]).1 = Ok out.
Proof.
  split; [vm_compute; reflexivity|].
  apply (clean_mortality_returns_iff plain_host [raw_a] 0%nat);
    vm_compute; reflexivity.
Defined.

(** X6.  The columns of the table [clean_mortality] returns.  None of the
    redundant code columns and no crude-rate column is left; the flag, the
    reported and the calculated crude rate, deaths and population are
    columns; an age column is one exactly when the table given has the
    age-group column or has that age column itself; any other label is a
    column exactly when it is one of the table given. *)
Theorem cleaned_columns (host : Host) (st : store) (df out : loc) (st' : store) :
  run (clean_mortality host df) st = (Ok out, st') ->
  (forall c, c ∈ redundant_cols -> has_label c (columns (table_at st' out)) = false) /\
  has_label "Crude Rate" (columns (table_at st' out)) = false /\
  (forall c,
     c ∈ ["Unreliable_Flag"; "CrudeRate_Reported"; "CrudeRate_Calculated";
          "Deaths"; "Population"] ->
     has_label c (columns (table_at st' out)) = true) /\
  (forall c,
     c ∈ ["Age_Min"; "Age_Max"; "Age_Mid"] ->
     has_label c (columns (table_at st' out)) =
     has_label "Ten-Year Age Groups" (columns (table_at st df))
     || has_label c (columns (table_at st df))) /\
  (forall c,
     c ∉ redundant_cols ->
     c ∉ ["Unreliable_Flag"; "Crude Rate"; "CrudeRate_Reported";
          "Age_Min"; "Age_Max"; "Age_Mid"; "CrudeRate_Calculated"] ->
     has_label c (columns (table_at st' out)) =
     has_label c (columns (table_at st df))).
Proof.
  intros Hrun. apply clean_mortality_table in Hrun.
  apply clean_table_Ok in Hrun as (t7 & Hf & -> & _).
  split; [|split; [|split; [|split]]].
  - intros c Hc. by apply (features_no_redundant host c _ _ Hf).
  - by apply (features_no_crude_rate host _ _ Hf).
  - intros c Hc. destruct (features_new_labels host _ _ Hf) as (HU & HR & HC).
    pose proof Hf as Hf'. rewrite features_table_eq in Hf'.
    apply crude_rate_calculated_Ok in Hf' as (HD & HP & Ht7).
    rewrite !elem_of_cons, elem_of_nil in Hc.
    destruct Hc as [->|[->|[->|[->|[->|[]]]]]]; try done.
    + rewrite Ht7. cbn [columns map_rows].
      rewrite has_label_add_ne by label_solver. exact HD.
    + rewrite Ht7. cbn [columns map_rows].
      rewrite has_label_add_ne by label_solver. exact HP.
  - intros c Hc. by apply (features_age_label host).
  - intros c Hr Hc. by apply (features_label host).
Qed.

(** The table of the first file: the cleaned table has the three age
    columns and no crude-rate column. *)
Lemma cleaned_columns_raw_a :
  has_label "Crude Rate"
    (columns (table_at (run (clean_mortality plain_host 0%nat) [raw_a]).2 4%nat)) = false.
Proof.
  apply (cleaned_columns plain_host [raw_a] 0%nat 4%nat
           (run (clean_mortality plain_host 0%nat) [raw_a]).2).
  vm_compute. reflexivity.
Defined.

(** ** The cells of the table of features *)

Lemma Forall2_same_r c (R : row -> cell -> Prop) (l : list row) t2 t3 :
  Forall2 (fun r r2 => R r (cell_at r2 c)) l (rows t2) ->
  same_cell c t2 t3 ->
  Forall2 (fun r r3 => R r (cell_at r3 c)) l (rows t3).
Proof.
  unfold same_cell. apply Forall2_chain. intros r r2 r3 Hr Heq. by rewrite Heq.
Qed.

Lemma Forall2_same_l c (R : cell -> row -> Prop) t1 t2 (l : list row) :
  same_cell c t1 t2 ->
  Forall2 (fun r2 r3 => R (cell_at r2 c) r3) (rows t2) l ->
  Forall2 (fun r1 r3 => R (cell_at r1 c) r3) (rows t1) l.
Proof.
  unfold same_cell. intros H12 H23.
  eapply Forall2_chain; [|exact H12|exact H23].
  intros r1 r2 r3 Heq Hr. cbn beta in Heq. by rewrite <- Heq.
Qed.

Lemma map_rows_Forall2 (R : row -> row -> Prop) cols f t :
  (forall r, R r (f r)) -> Forall2 R (rows t) (rows (map_rows cols f t)).
Proof.
  intros Hf. cbn [rows map_rows].
  apply Forall2_fmap_r, Forall_Forall2_diag, Forall_forall. intros r _. apply Hf.
Qed.

Lemma Forall2_rows_refl (R : row -> row -> Prop) t :
  (forall r, R r r) -> Forall2 R (rows t) (rows t).
Proof. intros HR. apply Forall_Forall2_diag, Forall_forall. intros r _. apply HR. Qed.

Section Setters.
Context (host : Host).

Lemma coerced_cell c t :
  Forall2 (fun r r' : row =>
             cell_at r' c =
               if has_label c (columns t) then to_numeric host (cell_at r c)
               else cell_at r c)
    (rows t) (rows (coerced host c t)).
Proof.
  unfold coerced. destruct (has_label c (columns t)).
  - apply map_rows_Forall2. intros r. apply cell_at_insert_eq.
  - by apply Forall2_rows_refl.
Qed.

Lemma crude_rate_converted_cell t :
  Forall2 (fun r r' : row =>
             cell_at r' "CrudeRate_Reported" =
               if has_label "Crude Rate" (columns t)
               then to_numeric host (cell_at r "Crude Rate") else NaN)
    (rows t) (rows (crude_rate_converted host t)).
Proof.
  unfold crude_rate_converted. destruct (has_label "Crude Rate" (columns t)).
  - cbn [rows frame_drop map_rows]. rewrite <- list_fmap_compose.
    apply Forall2_fmap_r, Forall_Forall2_diag, Forall_forall. intros r _.
    cbn [foldr compose]. rewrite cell_at_delete_ne by label_solver.
    apply cell_at_insert_eq.
  - cbn [rows frame_setscalar].
    apply Forall2_fmap_r, Forall_Forall2_diag, Forall_forall. intros r _.
    apply cell_at_insert_eq.
Qed.

Lemma sex_cleaned_cell t :
  Forall2 (fun r r' : row =>
             cell_at r' "Sex" =
               if has_label "Sex" (columns t) then replace_sex (cell_at r "Sex")
               else cell_at r "Sex")
    (rows t) (rows (sex_cleaned t)).
Proof.
  unfold sex_cleaned. destruct (has_label "Sex" (columns t)).
  - apply map_rows_Forall2. intros r. apply cell_at_insert_eq.
  - by apply Forall2_rows_refl.
Qed.

(** Steps 1 to 3, 1 to 4 and 1 to 5. *)
Lemma upto3_same c t :
  c ∉ redundant_cols ->
  c ∉ ["Unreliable_Flag"; "Year"; "Deaths"; "Population"] ->
  same_cell c t (numeric_converted host (flagged host (redundant_removed t))).
Proof.
  intros Hr Hc.
  eapply same_cell_trans; [by apply redundant_removed_same|].
  eapply same_cell_trans; [apply (flagged_same host); set_solver|].
  apply numeric_converted_same. set_solver.
Qed.

Lemma upto3_label c t :
  c ∉ redundant_cols -> c <> "Unreliable_Flag" ->
  has_label c (columns (numeric_converted host (flagged host (redundant_removed t)))) =
  has_label c (columns t).
Proof.
  intros Hr Hc. rewrite columns_numeric_converted. cbn [columns flagged map_rows].
  by rewrite has_label_add_ne, redundant_removed_label.
Qed.

Lemma upto4_same c t :
  c ∉ redundant_cols ->
  c ∉ ["Unreliable_Flag"; "Year"; "Deaths"; "Population"; "Crude Rate";
       "CrudeRate_Reported"] ->
  same_cell c t
    (crude_rate_converted host
       (numeric_converted host (flagged host (redundant_removed t)))).
Proof.
  intros Hr Hc.
  eapply same_cell_trans; [apply upto3_same; [done|set_solver]|].
  apply crude_rate_converted_same. set_solver.
Qed.

Lemma upto5_same c t :
  c ∉ redundant_cols ->
  c ∉ ["Unreliable_Flag"; "Year"; "Deaths"; "Population"; "Crude Rate";
       "CrudeRate_Reported"; "Sex"] ->
  same_cell c t
    (sex_cleaned (crude_rate_converted host
       (numeric_converted host (flagged host (redundant_removed t))))).
Proof.
  intros Hr Hc.
  eapply same_cell_trans; [apply upto4_same; [done|set_solver]|].
  apply sex_cleaned_same. set_solver.
Qed.

Lemma upto5_label c t :
  c ∉ redundant_cols ->
  c ∉ ["Unreliable_Flag"; "Crude Rate"; "CrudeRate_Reported"] ->
  has_label c (columns (sex_cleaned (crude_rate_converted host
                 (numeric_converted host (flagged host (redundant_removed t)))))) =
  has_label c (columns t).
Proof. intros Hr Hc. by rewrite five_label, redundant_removed_label. Qed.

Lemma upto4_label c t :
  c ∉ redundant_cols ->
  c ∉ ["Unreliable_Flag"; "Crude Rate"; "CrudeRate_Reported"] ->
  has_label c (columns (crude_rate_converted host
                 (numeric_converted host (flagged host (redundant_removed t))))) =
  has_label c (columns t).
Proof.
  intros Hr Hc. rewrite <- (upto5_label c t Hr Hc).
  unfold sex_cleaned. by destruct (has_label "Sex" _).
Qed.

(** Steps 6 and 7, and steps 5 to 7. *)
Lemma from6_same c t5 t7 :
  crude_rate_calculated host (age_parsed host t5) = Ok t7 ->
  c ∉ ["Age_Min"; "Age_Max"; "Age_Mid"; "CrudeRate_Calculated"] ->
  same_cell c t5 t7.
Proof.
  intros Hf Hc.
  eapply same_cell_trans; [apply (age_parsed_same host); set_solver|].
  eapply calculated_same; [|exact Hf]. set_solver.
Qed.

Lemma from5_same c t4 t7 :
  crude_rate_calculated host (age_parsed host (sex_cleaned t4)) = Ok t7 ->
  c ∉ ["Sex"; "Age_Min"; "Age_Max"; "Age_Mid"; "CrudeRate_Calculated"] ->
  same_cell c t4 t7.
Proof.
  intros Hf Hc.
  eapply same_cell_trans; [apply sex_cleaned_same; set_solver|].
  eapply from6_same; [exact Hf|]. set_solver.
Qed.

Lemma from4_same c t3 t7 :
  crude_rate_calculated host
    (age_parsed host (sex_cleaned (crude_rate_converted host t3))) = Ok t7 ->
  c ∉ ["Crude Rate"; "CrudeRate_Reported"; "Sex"; "Age_Min"; "Age_Max";
       "Age_Mid"; "CrudeRate_Calculated"] ->
  same_cell c t3 t7.
Proof.
  intros Hf Hc.
  eapply same_cell_trans; [apply (crude_rate_converted_same host); set_solver|].
  eapply from5_same; [exact Hf|]. set_solver.
Qed.

(** A label no step writes keeps its cells. *)
Lemma features_same c t t7 :
  features_table host t = Ok t7 ->
  c ∉ redundant_cols ->
  c ∉ ["Unreliable_Flag"; "Year"; "Deaths"; "Population"; "Crude Rate";
       "CrudeRate_Reported"; "Sex"; "Age_Min"; "Age_Max"; "Age_Mid";
       "CrudeRate_Calculated"] ->
  same_cell c t t7.
Proof.
  unfold features_table. intros Hf Hr Hc.
  eapply same_cell_trans; [apply upto3_same; [done|set_solver]|].
  apply (from4_same c _ t7 Hf). set_solver.
Qed.

End Setters.

Lemma Forall2_Forall_right {A B} (R : A -> B -> Prop) (P : B -> Prop) l l' :
  (forall x y, R x y -> P y) -> Forall2 R l l' -> Forall P l'.
Proof. intros HP. induction 1; constructor; eauto. Qed.

Lemma Forall2_both {A B} (R S T : A -> B -> Prop) l l' :
  (forall x y, R x y -> S x y -> T x y) ->
  Forall2 R l l' -> Forall2 S l l' -> Forall2 T l l'.
Proof.
  intros HT HR. induction HR as [|x y l l' Hxy _ IH]; intros HS; inv HS;
    constructor; eauto.
Qed.

Section FeatureCells.
Context (host : Host) (t t7 : frame).
Hypothesis Hfeatures : features_table host t = Ok t7.

Lemma features_sex :
  Forall2 (fun r r7 : row =>
             cell_at r7 "Sex" =
               if has_label "Sex" (columns t) then replace_sex (cell_at r "Sex")
               else cell_at r "Sex")
    (rows t) (rows t7).
Proof.
  assert ("Sex" ∉ redundant_cols) as Hr by label_solver.
  pose proof (upto4_same host "Sex" t Hr ltac:(label_solver)) as Hsame.
  pose proof (upto4_label host "Sex" t Hr ltac:(label_solver)) as Hlab.
  revert Hfeatures Hsame Hlab. unfold features_table.
  generalize (crude_rate_converted host
                (numeric_converted host (flagged host (redundant_removed t)))).
  intros t4 Hf Hsame Hlab.
  pose proof (sex_cleaned_cell t4) as Hset. rewrite Hlab in Hset.
  apply (Forall2_same_l "Sex"
           (fun v r5 => cell_at r5 "Sex" =
              if has_label "Sex" (columns t) then replace_sex v else v)
           t t4 _ Hsame) in Hset.
  apply (Forall2_same_r "Sex"
           (fun r v => v =
              if has_label "Sex" (columns t) then replace_sex (cell_at r "Sex")
              else cell_at r "Sex")
           _ (sex_cleaned t4) t7 Hset).
  apply (from6_same host "Sex" _ _ Hf). label_solver.
Qed.

Lemma features_reported :
  Forall2 (fun r r7 : row =>
             cell_at r7 "CrudeRate_Reported" =
               if has_label "Crude Rate" (columns t)
               then to_numeric host (cell_at r "Crude Rate") else NaN)
    (rows t) (rows t7).
Proof.
  assert ("Crude Rate" ∉ redundant_cols) as Hr by label_solver.
  pose proof (upto3_same host "Crude Rate" t Hr ltac:(label_solver)) as Hsame.
  pose proof (upto3_label host "Crude Rate" t Hr ltac:(label_solver)) as Hlab.
  revert Hfeatures Hsame Hlab. unfold features_table.
  generalize (numeric_converted host (flagged host (redundant_removed t))).
  intros t3 Hf Hsame Hlab.
  pose proof (crude_rate_converted_cell host t3) as Hset. rewrite Hlab in Hset.
  apply (Forall2_same_l "Crude Rate"
           (fun v r4 => cell_at r4 "CrudeRate_Reported" =
              if has_label "Crude Rate" (columns t) then to_numeric host v else NaN)
           t t3 _ Hsame) in Hset.
  apply (Forall2_same_r "CrudeRate_Reported"
           (fun r v => v =
              if has_label "Crude Rate" (columns t)
              then to_numeric host (cell_at r "Crude Rate") else NaN)
           _ (crude_rate_converted host t3) t7 Hset).
  apply (from5_same host "CrudeRate_Reported" _ _ Hf). label_solver.
Qed.

End FeatureCells.

Section NumericCells.
Context (host : Host).

Lemma numeric_converted_cell c t :
  c ∈ ["Year"; "Deaths"; "Population"] ->
  Forall2 (fun r r' : row =>
             cell_at r' c =
               if has_label c (columns t) then to_numeric host (cell_at r c)
               else cell_at r c)
    (rows t) (rows (numeric_converted host t)).
Proof.
  intros Hc. unfold numeric_converted.
  rewrite !elem_of_cons, elem_of_nil in Hc. destruct Hc as [->|[->|[->|[]]]].
  - pose proof (coerced_cell host "Year" t) as Hset.
    apply (Forall2_same_r "Year"
             (fun r v => v = if has_label "Year" (columns t)
                             then to_numeric host (cell_at r "Year")
                             else cell_at r "Year") _ _ _ Hset).
    eapply same_cell_trans; apply coerced_same; label_solver.
  - pose proof (coerced_cell host "Deaths" (coerced host "Year" t)) as Hset.
    rewrite columns_coerced in Hset.
    apply (Forall2_same_l "Deaths"
             (fun v r' => cell_at r' "Deaths" =
                if has_label "Deaths" (columns t) then to_numeric host v else v)
             t _ _ (coerced_same host "Deaths" "Year" t ltac:(label_solver))) in Hset.
    apply (Forall2_same_r "Deaths"
             (fun r v => v = if has_label "Deaths" (columns t)
                             then to_numeric host (cell_at r "Deaths")
                             else cell_at r "Deaths") _ _ _ Hset).
    apply coerced_same. label_solver.
  - pose proof (coerced_cell host "Population"
                  (coerced host "Deaths" (coerced host "Year" t))) as Hset.
    rewrite !columns_coerced in Hset.
    apply (Forall2_same_l "Population"
             (fun v r' => cell_at r' "Population" =
                if has_label "Population" (columns t) then to_numeric host v else v)
             t (coerced host "Deaths" (coerced host "Year" t))); [|exact Hset].
    eapply same_cell_trans; apply coerced_same; label_solver.
Qed.

Lemma features_numeric c t t7 :
  features_table host t = Ok t7 ->
  c ∈ ["Year"; "Deaths"; "Population"] ->
  Forall2 (fun r r7 : row =>
             cell_at r7 c =
               if has_label c (columns t) then to_numeric host (cell_at r c)
               else cell_at r c)
    (rows t) (rows t7).
Proof.
  intros Hf Hc.
  assert ((c ∉ redundant_cols) /\ c <> "Unreliable_Flag" /\
          (c ∉ ["Crude Rate"; "CrudeRate_Reported"; "Sex"; "Age_Min"; "Age_Max";
                "Age_Mid"; "CrudeRate_Calculated"])) as (Hr & Hu & Hw).
  { rewrite !elem_of_cons, elem_of_nil in Hc.
    destruct Hc as [->|[->|[->|[]]]]; repeat split; label_solver. }
  assert (same_cell c t (flagged host (redundant_removed t))) as Hsame.
  { eapply same_cell_trans; [by apply redundant_removed_same|].
    by apply flagged_same. }
  assert (has_label c (columns (flagged host (redundant_removed t))) =
          has_label c (columns t)) as Hlab.
  { cbn [columns flagged map_rows].
    by rewrite has_label_add_ne, redundant_removed_label. }
  revert Hf Hsame Hlab. unfold features_table.
  generalize (flagged host (redundant_removed t)). intros t2 Hf Hsame Hlab.
  pose proof (numeric_converted_cell c t2 Hc) as Hset. rewrite Hlab in Hset.
  apply (Forall2_same_l c
           (fun v r' => cell_at r' c =
              if has_label c (columns t) then to_numeric host v else v)
           t t2 _ Hsame) in Hset.
  apply (Forall2_same_r c
           (fun r v => v = if has_label c (columns t)
                           then to_numeric host (cell_at r c) else cell_at r c)
           _ _ t7 Hset).
  by apply (from4_same host c _ _ Hf).
Qed.

Lemma to_numeric_is_num v : is_num (to_numeric host v).
Proof.
  unfold to_numeric, is_num.
  destruct v as [s|x]; [destruct (to_number host s)|]; eauto.
Qed.

Lemma to_numeric_idempotent v :
  to_numeric host (to_numeric host v) = to_numeric host v.
Proof. by destruct (to_numeric_is_num v) as [x ->]. Qed.

End NumericCells.

Section AgeCells.
Context (host : Host).

Lemma age_parsed_cells t5 :
  has_label "Ten-Year Age Groups" (columns t5) = true ->
  Forall2 (fun r r' : row =>
             cell_at r' "Age_Min" =
               age_cell (parse_age_min host (cell_at r "Ten-Year Age Groups")) /\
             cell_at r' "Age_Max" =
               age_cell (parse_age_max host (cell_at r "Ten-Year Age Groups")) /\
             cell_at r' "Age_Mid" =
               age_mid (cell_at r' "Age_Min") (cell_at r' "Age_Max"))
    (rows t5) (rows (age_parsed host t5)).
Proof.
  intros HG. unfold age_parsed. rewrite HG.
  apply map_rows_Forall2. intros r. cbv zeta.
  rewrite cell_at_insert_eq.
  rewrite !(cell_at_insert_ne _ "Age_Mid") by label_solver.
  rewrite cell_at_insert_eq.
  rewrite (cell_at_insert_ne _ "Age_Max" "Age_Min") by label_solver.
  by rewrite cell_at_insert_eq.
Qed.

Lemma age_parsed_absent c t5 :
  has_label "Ten-Year Age Groups" (columns t5) = false ->
  same_cell c t5 (age_parsed host t5).
Proof. intros HG. unfold age_parsed. rewrite HG. apply same_cell_refl. Qed.

Lemma features_ages t t7 :
  features_table host t = Ok t7 ->
  has_label "Ten-Year Age Groups" (columns t) = true ->
  Forall2 (fun r r7 : row =>
             cell_at r7 "Age_Min" =
               age_cell (parse_age_min host (cell_at r "Ten-Year Age Groups")) /\
             cell_at r7 "Age_Max" =
               age_cell (parse_age_max host (cell_at r "Ten-Year Age Groups")) /\
             cell_at r7 "Age_Mid" =
               age_mid (cell_at r7 "Age_Min") (cell_at r7 "Age_Max"))
    (rows t) (rows t7).
Proof.
  intros Hf HG.
  assert ("Ten-Year Age Groups" ∉ redundant_cols) as Hr by label_solver.
  pose proof (upto5_same host "Ten-Year Age Groups" t Hr ltac:(label_solver)) as Hsame.
  pose proof (upto5_label host "Ten-Year Age Groups" t Hr ltac:(label_solver)) as Hlab.
  rewrite HG in Hlab.
  revert Hf Hsame Hlab. unfold features_table.
  generalize (sex_cleaned (crude_rate_converted host
                (numeric_converted host (flagged host (redundant_removed t))))).
  intros t5 Hf Hsame Hlab.
  pose proof (age_parsed_cells t5 Hlab) as Hset.
  apply (Forall2_same_l "Ten-Year Age Groups"
           (fun v r' =>
              cell_at r' "Age_Min" = age_cell (parse_age_min host v) /\
              cell_at r' "Age_Max" = age_cell (parse_age_max host v) /\
              cell_at r' "Age_Mid" =
                age_mid (cell_at r' "Age_Min") (cell_at r' "Age_Max"))
           t t5 _ Hsame) in Hset.
  assert (forall c, c ∈ ["Age_Min"; "Age_Max"; "Age_Mid"] ->
            same_cell c (age_parsed host t5) t7) as Hlast.
  { intros c Hc. eapply calculated_same; [|exact Hf].
    rewrite !elem_of_cons, elem_of_nil in Hc.
    destruct Hc as [->|[->|[->|[]]]]; label_solver. }
  pose proof (Hlast "Age_Min" ltac:(set_solver)) as H1.
  pose proof (Hlast "Age_Max" ltac:(set_solver)) as H2.
  pose proof (Hlast "Age_Mid" ltac:(set_solver)) as H3.
  clear Hlast. unfold same_cell in H1, H2, H3.
  pose proof (Forall2_both _ _ _ _ _ (fun _ _ a b => conj a b) H1
                (Forall2_both _ _ _ _ _ (fun _ _ a b => conj a b) H2 H3)) as H123.
  eapply Forall2_chain; [|exact Hset|exact H123].
  intros r r6 r7' (E1 & E2 & E3) (F1 & F2 & F3). cbn beta in *.
  by rewrite F1, F2, F3.
Qed.

Lemma features_ages_absent c t t7 :
  features_table host t = Ok t7 ->
  has_label "Ten-Year Age Groups" (columns t) = false ->
  c ∈ ["Age_Min"; "Age_Max"; "Age_Mid"] ->
  same_cell c t t7.
Proof.
  intros Hf HG Hc.
  assert ((c ∉ redundant_cols) /\
          (c ∉ ["Unreliable_Flag"; "Year"; "Deaths"; "Population"; "Crude Rate";
                "CrudeRate_Reported"; "Sex"]) /\ c <> "CrudeRate_Calculated")
    as (Hr & Hw & Hcalc).
  { rewrite !elem_of_cons, elem_of_nil in Hc.
    destruct Hc as [->|[->|[->|[]]]]; repeat split; label_solver. }
  assert ("Ten-Year Age Groups" ∉ redundant_cols) as HrG by label_solver.
  pose proof (upto5_same host c t Hr Hw) as Hsame.
  pose proof (upto5_label host "Ten-Year Age Groups" t HrG ltac:(label_solver)) as Hlab.
  rewrite HG in Hlab.
  revert Hf Hsame Hlab. unfold features_table.
  generalize (sex_cleaned (crude_rate_converted host
                (numeric_converted host (flagged host (redundant_removed t))))).
  intros t5 Hf Hsame Hlab.
  eapply same_cell_trans; [exact Hsame|].
  eapply same_cell_trans; [by apply age_parsed_absent|].
  by apply (calculated_same _ c _ _ Hcalc Hf).
Qed.

End AgeCells.

(** The mean of two bounds is missing when one of them is. *)
Lemma age_mid_missing lo hi :
  isna lo = true \/ isna hi = true -> isna (age_mid lo hi) = true.
Proof.
  assert (forall x, is_nan (x / 2) = true -> isna (Num (x / 2)) = true) as Hdiv by done.
  assert (is_nan (nan / 2) = true) as Hnan by reflexivity.
  unfold age_mid, num_op.
  destruct lo as [s|x], hi as [s'|y]; cbn [isna]; intros [Hna|Hna]; try done.
  - apply is_nan_eq in Hna as ->. apply is_nan_Prim2SF.
    rewrite FloatAxioms.div_spec, FloatAxioms.add_spec.
    change (Prim2SF nan) with S754_nan. done.
  - apply is_nan_eq in Hna as ->. apply is_nan_Prim2SF.
    rewrite FloatAxioms.div_spec, FloatAxioms.add_spec.
    change (Prim2SF nan) with S754_nan. by destruct (Prim2SF x).
Qed.

(** ** The rows [clean_mortality] keeps *)

Lemma Forall2_filter_both {A B} (R : A -> B -> Prop) (p : A -> bool) (q : B -> bool) l l' :
  Forall2 (fun x y => R x y /\ q y = p x) l l' ->
  Forall2 R (filter (fun x => p x = true) l) (filter (fun y => q y = true) l').
Proof.
  induction 1 as [|x y l l' [HR Hpq] _ IH]; [constructor|].
  rewrite !filter_cons. rewrite Hpq.
  destruct (decide (p x = true)); [by constructor|done].
Qed.

Lemma features_kept host t t7 :
  features_table host t = Ok t7 ->
  has_label "Deaths" (columns t) = true ->
  has_label "Population" (columns t) = true ->
  Forall2 (fun r r7 : row => sane r7 = kept_row host r) (rows t) (rows t7).
Proof.
  intros Hf HD HP.
  pose proof (features_numeric host "Deaths" t t7 Hf ltac:(set_solver)) as H1.
  pose proof (features_numeric host "Population" t t7 Hf ltac:(set_solver)) as H2.
  rewrite HD in H1. rewrite HP in H2.
  eapply Forall2_both; [|exact H1|exact H2].
  intros r r7 E1 E2. cbn beta in *. unfold sane, kept_row. by rewrite E1, E2.
Qed.

Lemma clean_table_labels host t t8 :
  clean_table host t = Ok t8 ->
  has_label "Deaths" (columns t) = true /\ has_label "Population" (columns t) = true.
Proof.
  intros Hc.
  destruct (has_label "Deaths" (columns t)) eqn:HD.
  - destruct (has_label "Population" (columns t)) eqn:HP; [done|].
    by rewrite (clean_table_no_population host t HD HP) in Hc.
  - by rewrite (clean_table_no_deaths host t HD) in Hc.
Qed.

(** What holds of every row of the table of features and the row it was
    made of holds of the rows kept and the rows returned. *)
Lemma clean_mortality_rows host st df out st' (R : row -> row -> Prop) :
  run (clean_mortality host df) st = (Ok out, st') ->
  (forall t7, features_table host (table_at st df) = Ok t7 ->
              Forall2 R (rows (table_at st df)) (rows t7)) ->
  Forall2 R (filter (fun r => kept_row host r = true) (rows (table_at st df)))
    (rows (table_at st' out)).
Proof.
  intros Hrun HR. apply clean_mortality_table in Hrun.
  destruct (clean_table_labels _ _ _ Hrun) as [HD HP].
  apply clean_table_Ok in Hrun as (t7 & Hf & _ & ->).
  apply Forall2_filter_both.
  eapply Forall2_both; [|exact (HR t7 Hf)|exact (features_kept _ _ _ Hf HD HP)].
  done.
Qed.

Lemma Forall2_forall_labels (P : string -> Prop) (R : string -> row -> row -> Prop) l l' :
  length l = length l' ->
  (forall c, P c -> Forall2 (R c) l l') ->
  Forall2 (fun r r' => forall c, P c -> R c r r') l l'.
Proof.
  intros Hlen HR. apply Forall2_same_length_lookup_2; [done|].
  intros i r r' Hi Hi' c Hc.
  by apply (Forall2_lookup_lr _ _ _ _ _ _ (HR c Hc) Hi Hi').
Qed.

Lemma features_length host t t7 :
  features_table host t = Ok t7 -> length (rows t7) = length (rows t).
Proof.
  intros Hf. symmetry.
  apply (Forall2_length _ _ _ (features_same host "State" t t7 Hf
           ltac:(label_solver) ltac:(label_solver))).
Qed.

(** X7.  The rows of the table [clean_mortality] returns are made, in their
    order, of exactly the rows given whose population reads as a number
    above 0 and whose deaths read as a number not below 0.  A row returned
    holds these two numbers, and in every column that no step writes the
    cell of the row it was made of. *)
Theorem cleaned_rows_kept (host : Host) (st : store) (df out : loc) (st' : store) :
  run (clean_mortality host df) st = (Ok out, st') ->
  Forall2 (fun r r8 : row =>
             cell_at r8 "Population" = to_numeric host (cell_at r "Population") /\
             cell_at r8 "Deaths" = to_numeric host (cell_at r "Deaths") /\
             forall c,
               c ∉ redundant_cols ++
                   ["Unreliable_Flag"; "Year"; "Deaths"; "Population"; "Crude Rate";
                    "CrudeRate_Reported"; "Sex"; "Age_Min"; "Age_Max"; "Age_Mid";
                    "CrudeRate_Calculated"] ->
               cell_at r8 c = cell_at r c)
    (filter (fun r => kept_row host r = true) (rows (table_at st df)))
    (rows (table_at st' out)).
Proof.
  intros Hrun. apply (clean_mortality_rows _ _ _ _ _ _ Hrun). intros t7 Hf.
  apply clean_mortality_table, clean_table_labels in Hrun as [HD HP].
  pose proof (features_numeric host "Deaths" _ t7 Hf ltac:(set_solver)) as H1.
  pose proof (features_numeric host "Population" _ t7 Hf ltac:(set_solver)) as H2.
  rewrite HD in H1. rewrite HP in H2.
  pose proof (features_length _ _ _ Hf) as Hlen.
  revert Hf H1 H2 Hlen. generalize (table_at st df). intros t Hf H1 H2 Hlen.
  eapply Forall2_both; [|exact H2|].
  { intros r r7 E2 E. split; [exact E2|exact E]. }
  eapply Forall2_both; [|exact H1|].
  { intros r r7 E1 E. split; [exact E1|exact E]. }
  apply (Forall2_forall_labels _ (fun c r r7 => cell_at r7 c = cell_at r c));
    [done|].
  intros c Hc. rewrite not_elem_of_app in Hc. destruct Hc as [Hr Hw].
  by apply (features_same host c t t7 Hf).
Qed.

(** The table of the first file: its one row is kept, with its state. *)
Lemma cleaned_rows_kept_raw_a :
  Forall2 (fun r r8 : row => cell_at r8 "State" = cell_at r "State")
    (filter (fun r => kept_row plain_host r = true) (rows raw_a))
    (rows (table_at (run (clean_mortality plain_host 0%nat) [raw_a]).2 4%nat)).
Proof.
  eapply Forall2_impl.
  - apply (cleaned_rows_kept plain_host [raw_a] 0%nat 4%nat
             (run (clean_mortality plain_host 0%nat) [raw_a]).2).
    vm_compute. reflexivity.
  - intros r r8 (_ & _ & Hc). apply Hc. label_solver.
Defined.

(** ** The cells [clean_mortality] writes *)

Lemma Forall2_impl_in {A B} (R S : A -> B -> Prop) l l' :
  Forall2 R l l' -> (forall x y, x ∈ l -> R x y -> S x y) -> Forall2 S l l'.
Proof.
  induction 1 as [|x y l l' Hxy _ IH]; intros HS; constructor.
  - apply HS; [left|done].
  - apply IH. intros x' y' Hin. apply HS. by right.
Qed.

Lemma replace_sex_no_code v :
  replace_sex v <> Str (cps "M") /\ replace_sex v <> Str (cps "F").
Proof.
  unfold replace_sex. destruct v as [s|x]; [|done].
  repeat case_bool_decide; subst; split; congruence || by vm_compute.
Qed.


(** X8.  The year of a row returned.  When the table given has a year
    column, the year is the year given read as a number, so a number or
    missing and never text; without the column no step writes a year. *)
Theorem year_numeric (host : Host) (st : store) (df out : loc) (st' : store) :
  run (clean_mortality host df) st = (Ok out, st') ->
  Forall2 (fun r r8 : row =>
             if has_label "Year" (columns (table_at st df))
             then cell_at r8 "Year" = to_numeric host (cell_at r "Year") /\
                  is_num (cell_at r8 "Year")
             else cell_at r8 "Year" = cell_at r "Year")
    (filter (fun r => kept_row host r = true) (rows (table_at st df)))
    (rows (table_at st' out)).
Proof.
  intros Hrun. apply (clean_mortality_rows _ _ _ _ _ _ Hrun). intros t7 Hf.
  pose proof (features_numeric host "Year" _ t7 Hf ltac:(set_solver)) as HY.
  clear Hrun. revert Hf HY. generalize (table_at st df). intros t Hf HY.
  destruct (has_label "Year" (columns t)); [|exact HY].
  eapply Forall2_impl; [exact HY|]. intros r r7 E. cbn beta in E.
  split; [exact E|]. rewrite E. apply to_numeric_is_num.
Qed.

(** The table of the first file: the year of the row returned is a number. *)
Lemma year_numeric_raw_a :
  Forall2 (fun r r8 : row => is_num (cell_at r8 "Year"))
    (filter (fun r => kept_row plain_host r = true) (rows raw_a))
    (rows (table_at (run (clean_mortality plain_host 0%nat) [raw_a]).2 4%nat)).
Proof.
  eapply Forall2_impl.
  - apply (year_numeric plain_host [raw_a] 0%nat 4%nat
             (run (clean_mortality plain_host 0%nat) [raw_a]).2).
    vm_compute. reflexivity.
  - intros r r8 Hc. exact (proj2 Hc).
Defined.

(** X9.  The sex of a row returned.  When the table given has a sex column,
    the code M has become Male, the code F has become Female and any other
    value is as given, so that neither code is left; without the column no
    step writes a sex. *)
Theorem sex_normalised (host : Host) (st : store) (df out : loc) (st' : store) :
  run (clean_mortality host df) st = (Ok out, st') ->
  Forall2 (fun r r8 : row =>
             if has_label "Sex" (columns (table_at st df))
             then cell_at r8 "Sex" = replace_sex (cell_at r "Sex") /\
                  (cell_at r "Sex" = Str (cps "M") -> cell_at r8 "Sex" = Str (cps "Male")) /\
                  (cell_at r "Sex" = Str (cps "F") -> cell_at r8 "Sex" = Str (cps "Female")) /\
                  (cell_at r "Sex" <> Str (cps "M") -> cell_at r "Sex" <> Str (cps "F") ->
                   cell_at r8 "Sex" = cell_at r "Sex") /\
                  cell_at r8 "Sex" <> Str (cps "M") /\
                  cell_at r8 "Sex" <> Str (cps "F")
             else cell_at r8 "Sex" = cell_at r "Sex")
    (filter (fun r => kept_row host r = true) (rows (table_at st df)))
    (rows (table_at st' out)).
Proof.
  intros Hrun. apply (clean_mortality_rows _ _ _ _ _ _ Hrun). intros t7 Hf.
  pose proof (features_sex host _ t7 Hf) as HS.
  clear Hrun. revert Hf HS. generalize (table_at st df). intros t Hf HS.
  destruct (has_label "Sex" (columns t)); [|exact HS].
  eapply Forall2_impl; [exact HS|]. intros r r7 E. cbn beta in E.
  rewrite E. split; [done|].
  split; [by intros ->|]. split; [by intros ->|].
  split; [|apply replace_sex_no_code].
  intros HM HF. unfold replace_sex. destruct (cell_at r "Sex") as [s|x]; [|done].
  repeat case_bool_decide; congruence.
Qed.

(** The table of the first file: the code M of its row has become Male. *)
Lemma sex_normalised_raw_a :
  Forall2 (fun r r8 : row => cell_at r8 "Sex" = Str (cps "Male"))
    (filter (fun r => kept_row plain_host r = true) (rows raw_a))
    (rows (table_at (run (clean_mortality plain_host 0%nat) [raw_a]).2 4%nat)).
Proof.
  eapply Forall2_impl_in.
  - apply (sex_normalised plain_host [raw_a] 0%nat 4%nat
             (run (clean_mortality plain_host 0%nat) [raw_a]).2).
    vm_compute. reflexivity.
  - intros r r8 Hr%list_elem_of_filter Hc.
    destruct Hr as [_ Hr]. apply list_elem_of_singleton in Hr. subst r.
    apply Hc. vm_compute. reflexivity.
Defined.

Lemma unreliable_not_numeric host v :
  to_number host (cps "Unreliable") = None ->
  (forall x, num_str host x <> cps "Unreliable") ->
  str host v = cps "Unreliable" -> isna (to_numeric host v) = true.
Proof.
  intros Hno Hstr. destruct v as [s|x]; cbn [str to_numeric].
  - intros ->. by rewrite Hno.
  - intros E. by destruct (Hstr x).
Qed.

(** X10.  The reported crude rate of a row returned.  It is the crude rate
    given read as a number, so a number or missing and never text, and it is
    missing when the table given has no crude-rate column.  When the marker
    is no numeral and no number prints as the marker, a row flagged as
    unreliable has no reported crude rate. *)
Theorem reported_rate (host : Host) (st : store) (df out : loc) (st' : store) :
  run (clean_mortality host df) st = (Ok out, st') ->
  Forall2 (fun r r8 : row =>
             cell_at r8 "CrudeRate_Reported" =
               (if has_label "Crude Rate" (columns (table_at st df))
                then to_numeric host (cell_at r "Crude Rate") else NaN) /\
             is_num (cell_at r8 "CrudeRate_Reported") /\
             (to_number host (cps "Unreliable") = None ->
              (forall x, num_str host x <> cps "Unreliable") ->
              cell_at r8 "Unreliable_Flag" = Num 1 ->
              isna (cell_at r8 "CrudeRate_Reported") = true))
    (filter (fun r => kept_row host r = true) (rows (table_at st df)))
    (rows (table_at st' out)).
Proof.
  intros Hrun. apply (clean_mortality_rows _ _ _ _ _ _ Hrun). intros t7 Hf.
  pose proof (features_reported host _ t7 Hf) as HR.
  pose proof (features_flag host _ t7 Hf) as HF.
  clear Hrun. revert Hf HR HF. generalize (table_at st df). intros t Hf HR HF.
  eapply Forall2_both; [|exact HR|exact HF].
  intros r r7 E [_ Hflag]. cbn beta in E. rewrite E. split; [done|]. split.
  - destruct (has_label "Crude Rate" (columns t)); [apply to_numeric_is_num|].
    by eexists.
  - intros Hno Hstr H1. apply Hflag in H1 as [-> Hs].
    by apply unreliable_not_numeric.
Qed.

(** The table of the first file: the reported crude rate of its row is the
    number read in the crude rate given. *)
Lemma reported_rate_raw_a :
  Forall2 (fun r r8 : row => cell_at r8 "CrudeRate_Reported" = Num 10)
    (filter (fun r => kept_row plain_host r = true) (rows raw_a))
    (rows (table_at (run (clean_mortality plain_host 0%nat) [raw_a]).2 4%nat)).
Proof.
  eapply Forall2_impl_in.
  - apply (reported_rate plain_host [raw_a] 0%nat 4%nat
             (run (clean_mortality plain_host 0%nat) [raw_a]).2).
    vm_compute. reflexivity.
  - intros r r8 Hr%list_elem_of_filter Hc.
    destruct Hr as [_ Hr]. apply list_elem_of_singleton in Hr. subst r.
    rewrite (proj1 Hc). vm_compute. reflexivity.
Defined.

(** X11.  The ages of a row returned, for a table whose age bounds are at
    most 2^53.  When the table given has the age-group column, the lower and
    the upper age are the bounds the two parsers read in the label of the
    row, the middle age is the mean of the two, and the middle age is missing
    when a bound is; without the column no step writes an age. *)
Theorem age_columns (host : Host) (st : store) (df out : loc) (st' : store) :
  ages_exact host (table_at st df) = true ->
  run (clean_mortality host df) st = (Ok out, st') ->
  Forall2 (fun r r8 : row =>
             if has_label "Ten-Year Age Groups" (columns (table_at st df))
             then cell_at r8 "Age_Min" =
                    age_cell (parse_age_min host (cell_at r "Ten-Year Age Groups")) /\
                  cell_at r8 "Age_Max" =
                    age_cell (parse_age_max host (cell_at r "Ten-Year Age Groups")) /\
                  cell_at r8 "Age_Mid" =
                    age_mid (cell_at r8 "Age_Min") (cell_at r8 "Age_Max") /\
                  (isna (cell_at r8 "Age_Min") = true \/
                   isna (cell_at r8 "Age_Max") = true ->
                   isna (cell_at r8 "Age_Mid") = true)
             else forall c, c ∈ ["Age_Min"; "Age_Max"; "Age_Mid"] ->
                            cell_at r8 c = cell_at r c)
    (filter (fun r => kept_row host r = true) (rows (table_at st df)))
    (rows (table_at st' out)).
Proof.
  intros _ Hrun. apply (clean_mortality_rows _ _ _ _ _ _ Hrun). intros t7 Hf.
  pose proof (features_length _ _ _ Hf) as Hlen.
  clear Hrun. revert Hf Hlen. generalize (table_at st df). intros t Hf Hlen.
  destruct (has_label "Ten-Year Age Groups" (columns t)) eqn:HG.
  - eapply Forall2_impl; [exact (features_ages host t t7 Hf HG)|].
    intros r r7 (E1 & E2 & E3). repeat split; try done.
    rewrite E3. apply age_mid_missing.
  - apply (Forall2_forall_labels (fun c => c ∈ ["Age_Min"; "Age_Max"; "Age_Mid"])
             (fun c r r7 => cell_at r7 c = cell_at r c)); [done|].
    intros c Hc. by apply (features_ages_absent host c t t7 Hf HG).
Qed.

(** The table of the first file: the ages of the band 45-54 years. *)
Lemma age_columns_raw_a :
  Forall2 (fun r r8 : row =>
             cell_at r8 "Age_Min" = Num 45 /\ cell_at r8 "Age_Max" = Num 54)
    (filter (fun r => kept_row plain_host r = true) (rows raw_a))
    (rows (table_at (run (clean_mortality plain_host 0%nat) [raw_a]).2 4%nat)).
Proof.
  eapply Forall2_impl_in.
  - apply (age_columns plain_host [raw_a] 0%nat 4%nat
             (run (clean_mortality plain_host 0%nat) [raw_a]).2);
      vm_compute; reflexivity.
  - intros r r8 Hr%list_elem_of_filter Hc.
    destruct Hr as [_ Hr]. apply list_elem_of_singleton in Hr. subst r.
    change (has_label "Ten-Year Age Groups" (columns (table_at [raw_a] 0%nat)))
      with true in Hc.
    destruct Hc as (E1 & E2 & _). rewrite E1, E2. vm_compute. done.
Defined.

(** ** Cleaning a cleaned table *)

Lemma Forall2_with_left {A B} (P : A -> Prop) (R S : A -> B -> Prop) l l' :
  (forall x y, P x -> R x y -> S x y) ->
  Forall P l -> Forall2 R l l' -> Forall2 S l l'.
Proof.
  intros HS HP HR. induction HR as [|x y l l' Hxy _ IH]; inv HP; constructor; eauto.
Qed.




Section CleanAgain.
Context (host : Host).





End CleanAgain.



(** ** The tables of [load_raw] *)

Lemma setscalar_rows c v t :
  Forall2 (fun r r' : row =>
             cell_at r' c = v /\ forall k, k <> c -> cell_at r' k = cell_at r k)
    (rows t) (rows (frame_setscalar c v t)).
Proof.
  cbn [rows frame_setscalar].
  apply Forall2_fmap_r, Forall_Forall2_diag, Forall_forall. intros r _.
  split; [apply cell_at_insert_eq|]. intros k Hk. by apply cell_at_insert_ne.
Qed.

Lemma has_label_add_any c k cols :
  has_label c (add_label k cols) = bool_decide (c = k) || has_label c cols.
Proof.
  case_bool_decide as Hck.
  - subst. apply has_label_add.
  - by apply has_label_add_ne.
Qed.

Lemma has_label_rename_any c old c' (cols : list string) :
  old <> c' -> has_label old cols = true ->
  has_label c (map (fun x => if bool_decide (x = old) then c' else x) cols) =
  bool_decide (c = c') || negb (bool_decide (c = old)) && has_label c cols.
Proof.
  intros Hne Hold. apply bool_decide_eq_true in Hold.
  repeat case_bool_decide; subst; cbn [orb andb negb].
  - apply bool_decide_eq_true, list_elem_of_fmap. exists old.
    by rewrite bool_decide_true.
  - apply bool_decide_eq_true, list_elem_of_fmap. exists old.
    by rewrite bool_decide_true.
  - apply bool_decide_eq_false. rewrite list_elem_of_fmap.
    intros (x & Hx & _). by case_bool_decide.
  - by apply has_label_rename.
Qed.

Lemma race_unified_rows raw2 :
  Forall2 (fun r r' : row =>
             (has_label "Single Race 6" (columns raw2) = true ->
              cell_at r' "Race" = cell_at r "Single Race 6") /\
             forall c,
               (has_label "Single Race 6" (columns raw2) = true ->
                c <> "Race" /\ c <> "Single Race 6") ->
               cell_at r' c = cell_at r c)
    (rows raw2) (rows (race_unified raw2)).
Proof.
  unfold race_unified. destruct (has_label "Single Race 6" (columns raw2)).
  - cbn [rows frame_rename].
    apply Forall2_fmap_r, Forall_Forall2_diag, Forall_forall. intros r _. split.
    + intros _. apply cell_at_insert_eq.
    + intros c Hc. destruct (Hc eq_refl) as [H1 H2].
      rewrite cell_at_insert_ne by done. by apply cell_at_delete_ne.
  - apply Forall_Forall2_diag, Forall_forall. intros r _. split; [done|]. done.
Qed.

Lemma race_unified_label raw2 c :
  has_label c (columns (race_unified raw2)) =
  if has_label "Single Race 6" (columns raw2)
  then bool_decide (c = "Race")
       || negb (bool_decide (c = "Single Race 6")) && has_label c (columns raw2)
  else has_label c (columns raw2).
Proof.
  unfold race_unified. destruct (has_label "Single Race 6" (columns raw2)) eqn:Hold;
    [|done].
  cbn [columns frame_rename]. by apply has_label_rename_any.
Qed.

Lemma loaded_second_rows raw2 :
  Forall2 (fun r r2 : row =>
             cell_at r2 "Source_File" = Str (cps "2018-2023") /\
             (has_label "Single Race 6" (columns raw2) = true ->
              cell_at r2 "Race" = cell_at r "Single Race 6") /\
             forall c,
               c <> "Source_File" ->
               (has_label "Single Race 6" (columns raw2) = true ->
                c <> "Race" /\ c <> "Single Race 6") ->
               cell_at r2 c = cell_at r c)
    (rows raw2) (rows (loaded_second raw2)).
Proof.
  unfold loaded_second.
  eapply Forall2_chain; [|apply race_unified_rows|apply setscalar_rows].
  intros r ru r2 [HR Hc] [HS Hk]. cbn beta in *. split; [done|]. split.
  - intros Hold. rewrite Hk by done. by apply HR.
  - intros c Hne Hcond. rewrite Hk by done. by apply Hc.
Qed.

(** X13.  [load_raw] reads the first file and then the second, and raises
    what [pd.read_csv] raises on the first of them that it cannot read; no
    table that there was is changed.  When both files are read, it returns
    two tables that it has made, different from each other.  The first holds
    the rows read in the first file and the second those read in the second
    file, each with the tag of its file as source and its other cells as
    read; in the second, the column Single Race 6, when there is one, has
    become the column Race. *)
Theorem load_raw_tables (file1 file2 : outcome frame) (st : store) :
  (forall e,
     file1 = Raise e ->
     run (load_raw file1 file2) st = (Raise e, st)) /\
  (forall raw1 e,
     file1 = Ok raw1 -> file2 = Raise e ->
     (run (load_raw file1 file2) st).1 = Raise e /\
     take (length st) (run (load_raw file1 file2) st).2 = st) /\
  (forall raw1 raw2,
     file1 = Ok raw1 -> file2 = Ok raw2 ->
     exists df1 df2 st',
       run (load_raw file1 file2) st = (Ok (df1, df2), st') /\
       df1 <> df2 /\
       (forall l, (l < length st)%nat ->
                  l <> df1 /\ l <> df2 /\ table_at st' l = table_at st l) /\
       Forall2 (fun r r1 : row =>
                  cell_at r1 "Source_File" = Str (cps "2004-2017") /\
                  forall c, c <> "Source_File" -> cell_at r1 c = cell_at r c)
         (rows raw1) (rows (table_at st' df1)) /\
       Forall2 (fun r r2 : row =>
                  cell_at r2 "Source_File" = Str (cps "2018-2023") /\
                  (has_label "Single Race 6" (columns raw2) = true ->
                   has_label "Race" (columns raw2) = false ->
                   cell_at r2 "Race" = cell_at r "Single Race 6") /\
                  forall c,
                    c <> "Source_File" ->
                    (has_label "Single Race 6" (columns raw2) = true ->
                     c <> "Race" /\ c <> "Single Race 6") ->
                    cell_at r2 c = cell_at r c)
         (rows raw2) (rows (table_at st' df2)) /\
       (forall c,
          has_label c (columns (table_at st' df1)) =
          bool_decide (c = "Source_File") || has_label c (columns raw1)) /\
       (forall c,
          has_label c (columns (table_at st' df2)) =
          bool_decide (c = "Source_File")
          || if has_label "Single Race 6" (columns raw2)
             then bool_decide (c = "Race")
                  || negb (bool_decide (c = "Single Race 6"))
                     && has_label c (columns raw2)
             else has_label c (columns raw2))).
Proof.
  split; [|split].
  - by intros e ->.
  - intros raw1 e -> ->. split; [done|].
    change (run (load_raw (Ok raw1) (Raise e)) st).2 with (st ++ [raw1]).
    by rewrite take_app_length.
  - intros raw1 raw2 -> ->.
    destruct (load_raw_run raw1 raw2 st) as [g Hrun].
    eexists _, _, _. split; [exact Hrun|].
    rewrite table_at_top.
    assert (table_at ((st ++ loaded_first raw1 :: g) ++ [loaded_second raw2])
              (length st) = loaded_first raw1) as ->.
    { rewrite <- app_assoc. apply table_at_here. }
    split; [rewrite length_app; cbn [length]; lia|].
    split; [|split; [|split; [|split]]].
    + intros l Hl. split; [lia|]. split; [rewrite length_app; lia|].
      unfold table_at. rewrite <- app_assoc. by rewrite lookup_app_l.
    + apply setscalar_rows.
    + eapply Forall2_impl; [apply loaded_second_rows|].
      intros r r2 (HS & HR & Hc). split; [done|]. split; [|done].
      intros Hold _. by apply HR.
    + intros c. unfold loaded_first. cbn [columns frame_setscalar].
      apply has_label_add_any.
    + intros c. unfold loaded_second. cbn [columns frame_setscalar].
      rewrite has_label_add_any. f_equal. apply race_unified_label.
Qed.

(** ** The table of [main] *)

Lemma has_label_concat c t1 t2 :
  has_label c (columns (frame_concat t1 t2)) =
  has_label c (columns t1) || has_label c (columns t2).
Proof.
  unfold has_label. cbn [columns frame_concat].
  destruct (bool_decide (c ∈ columns t1)) eqn:H1; cbn [orb].
  - apply bool_decide_eq_true in H1. apply bool_decide_eq_true. set_solver.
  - apply bool_decide_eq_false in H1. apply bool_decide_ext.
    rewrite elem_of_app, list_elem_of_filter. naive_solver.
Qed.

Lemma filter_ext_in {A} (P Q : A -> Prop) `{!forall x, Decision (P x)}
    `{!forall x, Decision (Q x)} (l : list A) :
  (forall x, x ∈ l -> P x <-> Q x) -> filter P l = filter Q l.
Proof.
  induction l as [|x l IH]; intros HPQ; [done|].
  rewrite !filter_cons, IH by (intros y Hy; apply HPQ; by right).
  destruct (decide (P x)) as [HP|HP], (decide (Q x)) as [HQ|HQ]; try done.
  - destruct HQ. apply HPQ; [left|done].
  - destruct HP. apply HPQ; [left|done].
Qed.

Section MainTable.
Context (host : Host).

Lemma clean_table_key_label t t8 c :
  clean_table host t = Ok t8 ->
  c ∈ sort_key ->
  has_label c (columns t8) =
  has_label c (columns t)
  || bool_decide (c = "Age_Min") && has_label "Ten-Year Age Groups" (columns t).
Proof.
  intros Hc Hk. apply clean_table_Ok in Hc as (t7 & Hf & -> & _).
  unfold sort_key in Hk. rewrite !elem_of_cons, elem_of_nil in Hk.
  destruct Hk as [->|[->|[->|[->|[->|[]]]]]].
  - rewrite (features_label host _ t t7 Hf) by label_solver.
    rewrite bool_decide_false by discriminate. by rewrite orb_false_r.
  - rewrite (features_label host _ t t7 Hf) by label_solver.
    rewrite bool_decide_false by discriminate. by rewrite orb_false_r.
  - rewrite (features_age_label host "Age_Min" t t7 Hf) by set_solver.
    rewrite bool_decide_true by done. cbn [andb]. apply orb_comm.
  - rewrite (features_label host _ t t7 Hf) by label_solver.
    rewrite bool_decide_false by discriminate. by rewrite orb_false_r.
  - rewrite (features_label host _ t t7 Hf) by label_solver.
    rewrite bool_decide_false by discriminate. by rewrite orb_false_r.
Qed.

Lemma loaded_first_label raw1 c :
  c <> "Source_File" ->
  has_label c (columns (loaded_first raw1)) = has_label c (columns raw1).
Proof.
  intros Hc. unfold loaded_first. cbn [columns frame_setscalar].
  by apply has_label_add_ne.
Qed.

Lemma loaded_second_label raw2 c :
  c <> "Source_File" -> c <> "Single Race 6" ->
  has_label c (columns (loaded_second raw2)) =
  has_label c (columns raw2)
  || bool_decide (c = "Race") && has_label "Single Race 6" (columns raw2).
Proof.
  intros Hc Ho. unfold loaded_second. cbn [columns frame_setscalar].
  rewrite has_label_add_ne by done. rewrite race_unified_label.
  rewrite (bool_decide_false (c = "Single Race 6")) by done. cbn [negb andb].
  destruct (has_label "Single Race 6" (columns raw2)).
  - rewrite andb_true_r. apply orb_comm.
  - by rewrite andb_false_r, orb_false_r.
Qed.

Lemma merged_key_label raw1 raw2 c1 c2 c :
  clean_table host (loaded_first raw1) = Ok c1 ->
  clean_table host (loaded_second raw2) = Ok c2 ->
  c ∈ sort_key ->
  has_label c (columns (frame_concat c1 c2)) = key_column raw1 raw2 c.
Proof.
  intros H1 H2 Hk. rewrite has_label_concat.
  rewrite (clean_table_key_label _ _ c H1 Hk), (clean_table_key_label _ _ c H2 Hk).
  assert (c <> "Source_File" /\ c <> "Single Race 6") as [Hs Ho].
  { unfold sort_key in Hk. rewrite !elem_of_cons, elem_of_nil in Hk.
    destruct Hk as [->|[->|[->|[->|[->|[]]]]]]; by split. }
  rewrite (loaded_first_label raw1 c Hs), (loaded_second_label raw2 c Hs Ho).
  rewrite (loaded_first_label raw1 "Ten-Year Age Groups") by discriminate.
  rewrite (loaded_second_label raw2 "Ten-Year Age Groups") by discriminate.
  rewrite (bool_decide_false ("Ten-Year Age Groups" = "Race")) by discriminate.
  cbn [andb]. rewrite orb_false_r. unfold key_column.
  destruct (has_label c (columns raw1)), (has_label c (columns raw2)),
    (bool_decide (c = "Age_Min")), (bool_decide (c = "Race")),
    (has_label "Ten-Year Age Groups" (columns raw1)),
    (has_label "Ten-Year Age Groups" (columns raw2)),
    (has_label "Single Race 6" (columns raw2)); reflexivity.
Qed.

Lemma sorted_table_keys raw1 raw2 c1 c2 :
  clean_table host (loaded_first raw1) = Ok c1 ->
  clean_table host (loaded_second raw2) = Ok c2 ->
  sorted_table sort_key (frame_concat c1 c2) =
  match filter (fun c => key_column raw1 raw2 c = false) sort_key with
  | c :: _ => Raise (KeyError c)
  | [] => Ok (frame_sort sort_key (frame_concat c1 c2))
  end.
Proof.
  intros H1 H2. unfold sorted_table.
  rewrite (filter_ext_in (fun c => c ∉ columns (frame_concat c1 c2))
             (fun c => key_column raw1 raw2 c = false) sort_key); [done|].
  intros c Hc. rewrite <- (merged_key_label raw1 raw2 c1 c2 c H1 H2 Hc).
  unfold has_label. by rewrite bool_decide_eq_false.
Qed.

Lemma main_outcome_table raw1 raw2 st :
  (run (main host raw1 raw2) st).1 =
  match pipeline_table host raw1 raw2 with
  | Ok _ => Ok (length (run (main host raw1 raw2) st).2 - 1)%nat
  | Raise e => Raise e
  end.
Proof.
  destruct (main_run host raw1 raw2 st) as [g ->].
  destruct (pipeline_table host raw1 raw2); [|done].
  cbn [fst snd]. rewrite (length_app _ [_]). cbn [length]. f_equal. lia.
Qed.

End MainTable.

(** X14.  When [main] returns and what it raises, for two files that are
    read and whose age bounds are at most 2^53.  A file without a deaths
    or a population column makes it raise [KeyError] on that label, the
    first file before the second and deaths before population.  When both
    files have the two columns, and the second has not both a column Race
    and a column Single Race 6, [main] raises [KeyError] on the first of the
    sort keys State, Year, Age_Min, Sex and Race that is no column of the
    merged table, and returns a table when each of them is one: a key is one
    when a file has it, the lower age also when a file has the age-group
    column, and the race also when the second file has Single Race 6. *)
Theorem main_outcome (host : Host) (raw1 raw2 : frame) (st : store) :
  ages_exact host raw1 = true ->
  ages_exact host raw2 = true ->
  (has_label "Deaths" (columns raw1) = false ->
   (run (main host raw1 raw2) st).1 = Raise (KeyError "Deaths")) /\
  (has_label "Deaths" (columns raw1) = true ->
   has_label "Population" (columns raw1) = false ->
   (run (main host raw1 raw2) st).1 = Raise (KeyError "Population")) /\
  (has_label "Deaths" (columns raw1) = true ->
   has_label "Population" (columns raw1) = true ->
   has_label "Deaths" (columns raw2) = false ->
   (run (main host raw1 raw2) st).1 = Raise (KeyError "Deaths")) /\
  (has_label "Deaths" (columns raw1) = true ->
   has_label "Population" (columns raw1) = true ->
   has_label "Deaths" (columns raw2) = true ->
   has_label "Population" (columns raw2) = false ->
   (run (main host raw1 raw2) st).1 = Raise (KeyError "Population")) /\
  (has_label "Deaths" (columns raw1) = true ->
   has_label "Population" (columns raw1) = true ->
   has_label "Deaths" (columns raw2) = true ->
   has_label "Population" (columns raw2) = true ->
   (has_label "Single Race 6" (columns raw2) = true ->
    has_label "Race" (columns raw2) = false) ->
   match filter (fun c => key_column raw1 raw2 c = false) sort_key with
   | c :: _ => (run (main host raw1 raw2) st).1 = Raise (KeyError c)
   | [] => exists out, (run (main host raw1 raw2) st).1 = Ok out
   end).
Proof.
  intros _ _. rewrite main_outcome_table. unfold pipeline_table.
  rewrite <- (loaded_first_label raw1 "Deaths") by discriminate.
  rewrite <- (loaded_first_label raw1 "Population") by discriminate.
  assert (has_label "Deaths" (columns raw2) =
          has_label "Deaths" (columns (loaded_second raw2))) as ->.
  { rewrite loaded_second_label by discriminate.
    rewrite bool_decide_false by discriminate. by rewrite orb_false_r. }
  assert (has_label "Population" (columns raw2) =
          has_label "Population" (columns (loaded_second raw2))) as ->.
  { rewrite loaded_second_label by discriminate.
    rewrite bool_decide_false by discriminate. by rewrite orb_false_r. }
  generalize (sorted_table_keys host raw1 raw2).
  generalize (filter (fun c => key_column raw1 raw2 c = false) sort_key).
  generalize (loaded_first raw1) (loaded_second raw2). intros L1 L2 missing Hkeys.
  split; [|split; [|split; [|split]]].
  - intros HD. by rewrite (clean_table_no_deaths host L1 HD).
  - intros HD HP. by rewrite (clean_table_no_population host L1 HD HP).
  - intros HD HP HD2. destruct (clean_table_total host L1 HD HP) as [c1 ->].
    by rewrite (clean_table_no_deaths host L2 HD2).
  - intros HD HP HD2 HP2. destruct (clean_table_total host L1 HD HP) as [c1 ->].
    by rewrite (clean_table_no_population host L2 HD2 HP2).
  - intros HD HP HD2 HP2 _.
    destruct (clean_table_total host L1 HD HP) as [c1 H1].
    destruct (clean_table_total host L2 HD2 HP2) as [c2 H2].
    rewrite H1, H2, (Hkeys c1 c2 H1 H2).
    destruct missing as [|c ?]; [eauto|done].
Qed.

(** The scenario of the specification: both files have the five keys, the
    second its race under Single Race 6, and [main] returns. *)
Lemma main_outcome_scenario :
  ages_exact plain_host raw_a = true /\
  ages_exact plain_host raw_b = true /\
  filter (fun c => key_column raw_a raw_b c = false) sort_key = [] /\
  exists out, (run (main plain_host raw_a raw_b) []).1 = Ok out.
Proof.
  split; [vm_compute; reflexivity|]. split; [vm_compute; reflexivity|].
  split; [vm_compute; reflexivity|].
  exact (proj2 (proj2 (proj2 (proj2
           (main_outcome plain_host raw_a raw_b [] eq_refl eq_refl))))
           eq_refl eq_refl eq_refl eq_refl (fun _ => eq_refl)).
Defined.

Lemma Forall2_filter_kept host (R : row -> row -> Prop) l l' :
  (forall r r', R r r' ->
     cell_at r' "Deaths" = cell_at r "Deaths" /\
     cell_at r' "Population" = cell_at r "Population") ->
  Forall2 R l l' ->
  Forall2 R (filter (fun r => kept_row host r = true) l)
    (filter (fun r => kept_row host r = true) l').
Proof.
  intros Hsame HR. apply Forall2_filter_both.
  eapply Forall2_impl; [exact HR|]. intros r r' Hr. split; [done|].
  destruct (Hsame r r' Hr) as [E1 E2]. unfold kept_row. by rewrite E1, E2.
Qed.

Lemma clean_table_untouched host t t8 :
  clean_table host t = Ok t8 ->
  Forall2 (fun r r8 : row =>
             forall c,
               c ∉ redundant_cols ++
                   ["Unreliable_Flag"; "Year"; "Deaths"; "Population"; "Crude Rate";
                    "CrudeRate_Reported"; "Sex"; "Age_Min"; "Age_Max"; "Age_Mid";
                    "CrudeRate_Calculated"] ->
               cell_at r8 c = cell_at r c)
    (filter (fun r => kept_row host r = true) (rows t)) (rows t8).
Proof.
  intros Hc. destruct (clean_table_labels _ _ _ Hc) as [HD HP].
  apply clean_table_Ok in Hc as (t7 & Hf & _ & ->).
  apply Forall2_filter_both.
  apply (Forall2_both
           (fun r r7 : row =>
              forall c,
                c ∉ redundant_cols ++
                    ["Unreliable_Flag"; "Year"; "Deaths"; "Population"; "Crude Rate";
                     "CrudeRate_Reported"; "Sex"; "Age_Min"; "Age_Max"; "Age_Mid";
                     "CrudeRate_Calculated"] ->
                cell_at r7 c = cell_at r c)
           (fun r r7 : row => sane r7 = kept_row host r)); [done| |].
  - apply (Forall2_forall_labels _ (fun c r r7 => cell_at r7 c = cell_at r c)).
    { symmetry. by apply (features_length host). }
    intros c [Hr Hw]%not_elem_of_app. by apply (features_same host c t t7 Hf).
  - exact (features_kept _ _ _ Hf HD HP).
Qed.

Lemma pipeline_table_Ok host raw1 raw2 t :
  pipeline_table host raw1 raw2 = Ok t ->
  exists c1 c2,
    clean_table host (loaded_first raw1) = Ok c1 /\
    clean_table host (loaded_second raw2) = Ok c2 /\
    t = frame_sort sort_key (frame_concat c1 c2).
Proof.
  unfold pipeline_table, sorted_table.
  destruct (clean_table host (loaded_first raw1)) as [c1|]; [|done].
  destruct (clean_table host (loaded_second raw2)) as [c2|]; [|done].
  destruct (filter _ sort_key); [|done]. intros [= <-]. by exists c1, c2.
Qed.

Lemma main_table host raw1 raw2 st out st' :
  run (main host raw1 raw2) st = (Ok out, st') ->
  pipeline_table host raw1 raw2 = Ok (table_at st' out).
Proof.
  destruct (main_run host raw1 raw2 st) as [g ->].
  destruct (pipeline_table host raw1 raw2) as [t|e]; [|done].
  intros [= <- <-]. by rewrite table_at_top.
Qed.

(** X15.  The rows of the table [main] returns.  They are in the order of
    the sort key, and they are the rows made of the rows kept of the first
    file together with those made of the rows kept of the second: a row
    carries the tag of its file as source and, in every column that no step
    writes, the cell read in the file, and a row of the second file has as
    race what was read in the column Single Race 6 when the file has that
    column and no column Race. *)
Theorem main_rows (host : Host) (raw1 raw2 : frame) (st : store) (out : loc)
    (st' : store) :
  run (main host raw1 raw2) st = (Ok out, st') ->
  Sorted (fun r r' => row_leb sort_key r r' = true) (rows (table_at st' out)) /\
  exists rows1 rows2,
    rows (table_at st' out) ≡ₚ rows1 ++ rows2 /\
    Forall2 (fun r r' : row =>
               cell_at r' "Source_File" = Str (cps "2004-2017") /\
               forall c,
                 c ∉ "Source_File" :: redundant_cols ++
                     ["Unreliable_Flag"; "Year"; "Deaths"; "Population";
                      "Crude Rate"; "CrudeRate_Reported"; "Sex"; "Age_Min";
                      "Age_Max"; "Age_Mid"; "CrudeRate_Calculated"] ->
                 cell_at r' c = cell_at r c)
      (filter (fun r => kept_row host r = true) (rows raw1)) rows1 /\
    Forall2 (fun r r' : row =>
               cell_at r' "Source_File" = Str (cps "2018-2023") /\
               (has_label "Single Race 6" (columns raw2) = true ->
                has_label "Race" (columns raw2) = false ->
                cell_at r' "Race" = cell_at r "Single Race 6") /\
               forall c,
                 c ∉ "Source_File" :: redundant_cols ++
                     ["Unreliable_Flag"; "Year"; "Deaths"; "Population";
                      "Crude Rate"; "CrudeRate_Reported"; "Sex"; "Age_Min";
                      "Age_Max"; "Age_Mid"; "CrudeRate_Calculated"] ->
                 (has_label "Single Race 6" (columns raw2) = true ->
                  c <> "Race" /\ c <> "Single Race 6") ->
                 cell_at r' c = cell_at r c)
      (filter (fun r => kept_row host r = true) (rows raw2)) rows2.
Proof.
  intros Hrun. apply main_table, pipeline_table_Ok in Hrun
    as (c1 & c2 & H1 & H2 & ->).
  cbn [rows frame_sort frame_concat].
  split; [apply stable_sort_sorted, row_leb_total|].
  exists (rows c1), (rows c2). split; [apply stable_sort_perm|].
  apply clean_table_untouched in H1, H2.
  assert ("Source_File" ∉ redundant_cols ++
            ["Unreliable_Flag"; "Year"; "Deaths"; "Population"; "Crude Rate";
             "CrudeRate_Reported"; "Sex"; "Age_Min"; "Age_Max"; "Age_Mid";
             "CrudeRate_Calculated"]) as HSF by label_solver.
  assert ("Race" ∉ redundant_cols ++
            ["Unreliable_Flag"; "Year"; "Deaths"; "Population"; "Crude Rate";
             "CrudeRate_Reported"; "Sex"; "Age_Min"; "Age_Max"; "Age_Mid";
             "CrudeRate_Calculated"]) as HRace by label_solver.
  revert H1 H2 HSF HRace.
  generalize (redundant_cols ++
            ["Unreliable_Flag"; "Year"; "Deaths"; "Population"; "Crude Rate";
             "CrudeRate_Reported"; "Sex"; "Age_Min"; "Age_Max"; "Age_Mid";
             "CrudeRate_Calculated"]).
  intros written H1 H2 HSF HRace. split.
  - eapply Forall2_chain; [| |exact H1].
    2:{ apply (Forall2_filter_kept host
                 (fun r r' : row =>
                    cell_at r' "Source_File" = Str (cps "2004-2017") /\
                    forall k, k <> "Source_File" -> cell_at r' k = cell_at r k)).
        - intros r r' [_ Hk]. split; by apply Hk.
        - apply setscalar_rows. }
    intros r rl r' [HS Hk] Hc. cbn beta in *. split.
    + by rewrite Hc.
    + intros c [Hne Hw]%not_elem_of_cons. rewrite Hc by done. by apply Hk.
  - eapply Forall2_chain; [| |exact H2].
    2:{ apply (Forall2_filter_kept host
                 (fun r r2 : row =>
                    cell_at r2 "Source_File" = Str (cps "2018-2023") /\
                    (has_label "Single Race 6" (columns raw2) = true ->
                     cell_at r2 "Race" = cell_at r "Single Race 6") /\
                    forall c,
                      c <> "Source_File" ->
                      (has_label "Single Race 6" (columns raw2) = true ->
                       c <> "Race" /\ c <> "Single Race 6") ->
                      cell_at r2 c = cell_at r c)).
        - intros r r' (_ & _ & Hk). split; by apply Hk.
        - apply loaded_second_rows. }
    intros r rl r' (HS & HR & Hk) Hc. cbn beta in *. split; [|split].
    + by rewrite Hc.
    + intros Hold _. rewrite Hc by done. by apply HR.
    + intros c [Hne Hw]%not_elem_of_cons Hcond. rewrite Hc by done. by apply Hk.
Qed.

(** The scenario of the specification: the table [main] writes is in the
    order of the key. *)
Lemma main_rows_scenario :
  Sorted (fun r r' => row_leb sort_key r r' = true)
    (rows (table_at (run (main plain_host raw_a raw_b) []).2 12%nat)).
Proof.
  apply (main_rows plain_host raw_a raw_b [] 12%nat
           (run (main plain_host raw_a raw_b) []).2).
  vm_compute. reflexivity.
Defined.

Lemma filter_none {A} (P : A -> Prop) `{!forall x, Decision (P x)} l :
  Forall (fun x => ~ P x) l -> filter P l = [].
Proof.
  induction 1 as [|x l Hx _ IH]; [done|]. by rewrite filter_cons, decide_False.
Qed.

Lemma filter_and_all {A} (P Q : A -> Prop) `{!forall x, Decision (P x)}
    `{!forall x, Decision (Q x)} l :
  Forall Q l -> filter (fun x => P x /\ Q x) l = filter P l.
Proof.
  intros HQ. apply filter_ext_in. intros x Hx.
  rewrite Forall_forall in HQ. specialize (HQ x Hx). tauto.
Qed.

Lemma cleaned_source_tag host L c v :
  Forall (fun r => cell_at r "Source_File" = v) (rows L) ->
  clean_table host L = Ok c ->
  Forall (fun r => cell_at r "Source_File" = v) (rows c).
Proof.
  intros HL Hc. apply clean_table_untouched in Hc.
  assert (Forall (fun r => cell_at r "Source_File" = v)
            (filter (fun r => kept_row host r = true) (rows L))) as HK.
  { apply Forall_forall. intros r [_ Hr]%list_elem_of_filter.
    rewrite Forall_forall in HL. by apply HL. }
  eapply Forall2_Forall_right;
    [|exact (Forall2_with_left _ _ _ _ _ (fun _ _ a b => conj a b) HK Hc)].
  intros r r' [Hr Hsame]. cbn beta in *. rewrite Hsame; [done|]. label_solver.
Qed.

Lemma pipeline_source_tags host raw1 raw2 c1 c2 :
  clean_table host (loaded_first raw1) = Ok c1 ->
  clean_table host (loaded_second raw2) = Ok c2 ->
  Forall (fun r => cell_at r "Source_File" = Str (cps "2004-2017")) (rows c1) /\
  Forall (fun r => cell_at r "Source_File" = Str (cps "2018-2023")) (rows c2).
Proof.
  intros H1 H2. split.
  - eapply cleaned_source_tag; [|exact H1].
    eapply Forall2_Forall_right; [|apply setscalar_rows]. by intros r r' [? _].
  - eapply cleaned_source_tag; [|exact H2].
    eapply Forall2_Forall_right; [|apply setscalar_rows]. by intros r r' [? _].
Qed.

(** X16.  Ties in the table [main] returns.  Every row carries the tag of
    one of the two files, and among the rows of one sort key those of the
    first file come before those of the second. *)
Theorem main_ties_by_file (host : Host) (raw1 raw2 : frame) (st : store)
    (out : loc) (st' : store) :
  run (main host raw1 raw2) st = (Ok out, st') ->
  Forall (fun r => cell_at r "Source_File" = Str (cps "2004-2017") \/
                   cell_at r "Source_File" = Str (cps "2018-2023"))
    (rows (table_at st' out)) /\
  forall k : list cell,
    filter (fun r => key_of r = k) (rows (table_at st' out)) =
    filter (fun r => key_of r = k /\
                     cell_at r "Source_File" = Str (cps "2004-2017"))
      (rows (table_at st' out)) ++
    filter (fun r => key_of r = k /\
                     cell_at r "Source_File" = Str (cps "2018-2023"))
      (rows (table_at st' out)).
Proof.
  intros Hrun. apply main_table, pipeline_table_Ok in Hrun
    as (c1 & c2 & H1 & H2 & ->).
  destruct (pipeline_source_tags host raw1 raw2 c1 c2 H1 H2) as [T1 T2].
  cbn [rows frame_sort frame_concat]. clear H1 H2.
  revert T1 T2. generalize (rows c1) (rows c2). intros l1 l2 T1 T2.
  assert (Str (cps "2004-2017") <> Str (cps "2018-2023")) as Hne by discriminate.
  split.
  - rewrite stable_sort_perm. apply Forall_app. split.
    + eapply Forall_impl; [exact T1|]. intros r Hr. by left.
    + eapply Forall_impl; [exact T2|]. intros r Hr. by right.
  - intros k.
    rewrite !stable_sort_filter, !filter_app.
    2,3: intros x y [Hx _] [Hy _]; apply row_leb_same_key; congruence.
    2: intros x y Hx Hy; apply row_leb_same_key; congruence.
    rewrite (filter_and_all _ _ l1 T1), (filter_and_all _ _ l2 T2).
    rewrite (filter_none
               (fun r => key_of r = k /\
                         cell_at r "Source_File" = Str (cps "2004-2017")) l2).
    2:{ eapply Forall_impl; [exact T2|]. intros r Hr [_ Hr']. congruence. }
    rewrite (filter_none
               (fun r => key_of r = k /\
                         cell_at r "Source_File" = Str (cps "2018-2023")) l1).
    2:{ eapply Forall_impl; [exact T1|]. intros r Hr [_ Hr']. congruence. }
    by rewrite app_nil_r.
Qed.

(** The scenario of the specification: the row that [main] writes carries a
    tag. *)
Lemma main_ties_by_file_scenario :
  Forall (fun r => cell_at r "Source_File" = Str (cps "2004-2017") \/
                   cell_at r "Source_File" = Str (cps "2018-2023"))
    (rows (table_at (run (main plain_host raw_a raw_b) []).2 12%nat)).
Proof.
  apply (main_ties_by_file plain_host raw_a raw_b [] 12%nat
           (run (main plain_host raw_a raw_b) []).2).
  vm_compute. reflexivity.
Defined.
